(** * job-alert-bot: a shallow embedding of [main.py]

    The bot polls a job-listing site, extracts one record per listing card,
    filters the records by region, remote markers and contract type,
    remembers the ids it has already collected and pushes the new records to
    a messaging endpoint.

    Python strings are sequences of Unicode code points; they are modelled
    as [list N].  Library functions whose code is outside the repository
    (Unicode case mapping, [urljoin]) are taken through the class [PyLib];
    the network and the file system are explicit inputs. *)

From Stdlib Require Import NArith ZArith List String Ascii Lia Bool.
From stdpp Require Import gmap strings list.
Import ListNotations.

Local Open Scope N_scope.
#[local] Set Warnings "-clear-no-such-hyp".

(** ** Python [str] *)

Module Str.

(** A Python string: its code points, in order.  Code points are taken to
    be Unicode scalar values (no lone surrogates), so that
    [encode("utf-8")] is total. *)
Definition pystr : Type := list N.

(** Decoder used only to write string constants: the bytes of a UTF-8
    literal are folded into code points. *)
Fixpoint utf8_decode (bs : list N) (pending acc : N) : pystr :=
  match bs with
  | [] => []
  | b :: rest =>
      if pending =? 0 then
        if b <? 128 then b :: utf8_decode rest 0 0
        else if b <? 224 then utf8_decode rest 1 (N.land b 31)
        else if b <? 240 then utf8_decode rest 2 (N.land b 15)
        else utf8_decode rest 3 (N.land b 7)
      else
        let acc' := acc * 64 + N.land b 63 in
        if pending =? 1 then acc' :: utf8_decode rest 0 0
        else utf8_decode rest (pending - 1) acc'
  end.

Definition u (s : string) : pystr :=
  utf8_decode (map N_of_ascii (list_ascii_of_string s)) 0 0.

(** [s.encode("utf-8")] *)
Definition encode_cp (c : N) : list N :=
  if c <? 128 then [c]
  else if c <? 2048 then [192 + c / 64; 128 + c mod 64]
  else if c <? 65536 then
    [224 + c / 4096; 128 + (c / 64) mod 64; 128 + c mod 64]
  else
    [240 + c / 262144; 128 + (c / 4096) mod 64;
     128 + (c / 64) mod 64; 128 + c mod 64].

Definition encode_utf8 (s : pystr) : list N := flat_map encode_cp s.

(** [s.startswith(p)] *)
Fixpoint starts_with (p s : pystr) : bool :=
  match p, s with
  | [], _ => true
  | _ :: _, [] => false
  | a :: p', b :: s' => (a =? b) && starts_with p' s'
  end.

(** [p in s]: [p] occurs in [s] as a contiguous run of code points. *)
Fixpoint contains (p s : pystr) : bool :=
  starts_with p s ||
  match s with
  | [] => false
  | _ :: s' => contains p s'
  end.

(** [sep.join(parts)] *)
Fixpoint join (sep : pystr) (parts : list pystr) : pystr :=
  match parts with
  | [] => []
  | [p] => p
  | p :: rest => p ++ sep ++ join sep rest
  end.

(** Truthiness of a string: non-empty. *)
Definition truthy (s : pystr) : bool :=
  match s with [] => false | _ :: _ => true end.

End Str.
Export Str.

(** ** [hashlib.sha1] *)

Module Sha1.

Definition mask32 : N := 4294967295.
Definition add32 (x y : N) : N := (x + y) mod 4294967296.
Definition rotl32 (n x : N) : N :=
  N.lor (N.land (N.shiftl x n) mask32) (N.shiftr x (32 - n)).
Definition not32 (x : N) : N := N.lxor x mask32.

(** Message padding: a [0x80] byte, zero bytes up to 56 modulo 64, then
    the bit length on 8 bytes, most significant first. *)
Definition be_bytes (k : nat) (x : N) : list N :=
  map (fun i => (x / 256 ^ N.of_nat i) mod 256) (rev (seq 0 k)).

Definition pad (msg : list N) : list N :=
  let len := N.of_nat (length msg) in
  msg ++ [128] ++ repeat 0 (N.to_nat ((119 - len mod 64) mod 64))
      ++ be_bytes 8 (8 * len).

Fixpoint words (bs : list N) : list N :=
  match bs with
  | a :: b :: c :: d :: rest =>
      (((a * 256 + b) * 256 + c) * 256 + d) :: words rest
  | _ => []
  end.

Definition round_f (t : nat) (b c d : N) : N :=
  if (t <? 20)%nat then N.lor (N.land b c) (N.land (not32 b) d)
  else if (t <? 40)%nat then N.lxor (N.lxor b c) d
  else if (t <? 60)%nat then
    N.lor (N.lor (N.land b c) (N.land b d)) (N.land c d)
  else N.lxor (N.lxor b c) d.

Definition round_k (t : nat) : N :=
  if (t <? 20)%nat then 1518500249
  else if (t <? 40)%nat then 1859775393
  else if (t <? 60)%nat then 2400959708
  else 3395469782.

Record regs := Regs { ra : N; rb : N; rc : N; rd : N; re : N }.

(** [win] holds the sixteen schedule words [w_t .. w_(t+15)]. *)
Definition next_word (win : list N) : N :=
  rotl32 1 (N.lxor (N.lxor (nth 13 win 0) (nth 8 win 0))
                   (N.lxor (nth 2 win 0) (nth 0 win 0))).

Fixpoint rounds (n t : nat) (win : list N) (r : regs) : regs :=
  match n with
  | O => r
  | S n' =>
      let tmp :=
        add32 (add32 (add32 (add32 (rotl32 5 (ra r))
                                   (round_f t (rb r) (rc r) (rd r)))
                            (re r))
                     (round_k t))
              (nth 0 win 0) in
      rounds n' (S t) (tl win ++ [next_word win])
             (Regs tmp (ra r) (rotl32 30 (rb r)) (rc r) (rd r))
  end.

Definition compress (h : regs) (block : list N) : regs :=
  let r := rounds 80 0 block h in
  Regs (add32 (ra h) (ra r)) (add32 (rb h) (rb r)) (add32 (rc h) (rc r))
       (add32 (rd h) (rd r)) (add32 (re h) (re r)).

Fixpoint blocks (n : nat) (ws : list N) (h : regs) : regs :=
  match n with
  | O => h
  | S n' =>
      match ws with
      | [] => h
      | _ => blocks n' (skipn 16 ws) (compress h (firstn 16 ws))
      end
  end.

Definition init : regs :=
  Regs 1732584193 4023233417 2562383102 271733878 3285377520.

Definition digest (msg : list N) : regs :=
  let ws := words (pad msg) in
  blocks (length ws) ws init.

Definition hex_digit (d : N) : N := if d <? 10 then 48 + d else 87 + d.

Definition hex32 (x : N) : pystr :=
  map (fun i => hex_digit ((x / 16 ^ N.of_nat i) mod 16)) (rev (seq 0 8)).

(** [hashlib.sha1(msg).hexdigest()] *)
Definition hexdigest (msg : list N) : pystr :=
  let r := digest msg in
  hex32 (ra r) ++ hex32 (rb r) ++ hex32 (rc r) ++ hex32 (rd r)
        ++ hex32 (re r).

End Sha1.

(** ** Library functions

    [str.lower], [str.upper] and [urllib.parse.urljoin] are not code of the
    repository.  The program is embedded over any implementation of them;
    [latin1] below is the one used to evaluate the program on concrete
    records. *)

Class PyLib := {
  str_lower : pystr -> pystr;
  str_upper : pystr -> pystr;
  urljoin : pystr -> pystr -> pystr
}.

Module Latin1.

(** Case mapping of Python 3 on the code points below 256 (Basic Latin and
    Latin-1 Supplement); other code points are left as they are. *)
Definition lower_cp (c : N) : N :=
  if (65 <=? c) && (c <=? 90) then c + 32
  else if (192 <=? c) && (c <=? 222) && negb (c =? 215) then c + 32
  else c.

Definition upper_cp (c : N) : list N :=
  if (97 <=? c) && (c <=? 122) then [c - 32]
  else if (224 <=? c) && (c <=? 254) && negb (c =? 247) then [c - 32]
  else if c =? 223 then [83; 83]
  else if c =? 255 then [376]
  else if c =? 181 then [924]
  else [c].

Definition lower (s : pystr) : pystr := map lower_cp s.
Definition upper (s : pystr) : pystr := flat_map upper_cp s.

(** [urljoin] on the two shapes of [href] the listing pages use: an
    absolute URL is kept, an absolute path is appended to a base that has
    no path. *)
Definition join_url (base href : pystr) : pystr :=
  if starts_with (u "http://") href || starts_with (u "https://") href
  then href
  else base ++ href.

End Latin1.

#[export] Instance latin1 : PyLib := {
  str_lower := Latin1.lower;
  str_upper := Latin1.upper;
  urljoin := Latin1.join_url
}.

(** ** Exceptions *)

Inductive exn : Type :=
| OSError
| ValueError
| TypeError
| RequestException.

(** The outcome of a call that may raise.  Every member of [exn] is a
    subclass of [Exception], so [except Exception] handles all of them. *)
Inductive Exc (A : Type) : Type :=
| Ok (a : A)
| Raise (e : exn).
Arguments Ok {A} a.
Arguments Raise {A} e.

Definition bindE {A B : Type} (m : Exc A) (k : A -> Exc B) : Exc B :=
  match m with
  | Ok a => k a
  | Raise e => Raise e
  end.

(** [try: m  except Exception: h] *)
Definition try_except {A : Type} (m : Exc A) (h : exn -> Exc A) : Exc A :=
  match m with
  | Ok a => Ok a
  | Raise e => h e
  end.

Notation "'let!' x ':=' m 'in' k" := (bindE m (fun x => k))
  (at level 10, x name, m at level 100, k at level 200).

(** ** Configuration *)

Definition TITLES : list pystr :=
  [u "opérateur de saisie"; u "opérateur saisie"; u "saisie de données";
   u "saisie"; u "opérateur saisie"; u "data entry"].

Definition BRETAGNE_CITIES : list pystr :=
  [u "Rennes"; u "Nantes"; u "Brest"; u "Saint-Brieuc"; u "Vannes";
   u "Lorient"; u "Quimper"; u "Brest"].

Definition CONTRACT_KEYWORDS : list pystr :=
  [u "CDI"; u "CDD"; u "Intérim"; u "Interim"; u "Contrat"].

Definition MIN_SLEEP : Z := 60.

(** ** Data model *)

(** One posting, as [parse_indeed_search] builds it. *)
Record Job := mkJob {
  job_title : pystr;
  job_company : pystr;
  job_location : pystr;
  job_summary : pystr;
  job_link : pystr;
  job_contract : option pystr;
  job_id : pystr
}.

(** What the selectors of [parse_indeed_search] find in one listing card:
    the text of each sub-element, [None] when the selector matches nothing. *)
Record Card := mkCard {
  card_h2 : option pystr;            (* c.select_one("h2") *)
  card_text : pystr;                 (* c.get_text(" ", strip=True) *)
  card_href : option pystr;          (* c.get("href") *)
  card_a_href : option (option pystr); (* c.select_one("a"), its "href" *)
  card_companyName : option pystr;   (* .companyName *)
  card_company : option pystr;       (* .company *)
  card_companyLocation : option pystr; (* .companyLocation *)
  card_location : option pystr;      (* .location *)
  card_job_snippet : option pystr;   (* .job-snippet *)
  card_summary : option pystr        (* .summary *)
}.

(** A parsed page: the result of each of the three card selectors. *)
Record Soup := mkSoup {
  sel_tapItem : list Card;           (* a.tapItem *)
  sel_job_seen_beacon : list Card;   (* div.job_seen_beacon a *)
  sel_article : list Card            (* article *)
}.

Record Response := mkResponse {
  status_code : Z;
  soup : Soup
}.

(** The query parameters of one search request ([make_indeed_url]). *)
Record SearchParams := mkParams {
  param_q : pystr;
  param_l : pystr;
  param_start : nat
}.

Definition make_indeed_url (query location : pystr) (start : nat)
  : SearchParams :=
  mkParams query location start.

(** [a or b] on optional values, where [None] is the only falsy one
    (a matched tag is always truthy). *)
Definition or_tag {A : Type} (a b : option A) : option A :=
  match a with
  | Some x => Some x
  | None => b
  end.

(** [a or b] on lists: an empty list is falsy. *)
Definition or_list {A : Type} (a b : list A) : list A :=
  match a with
  | [] => b
  | _ :: _ => a
  end.

(** Truthiness of an optional string: [None] and the empty string are falsy. *)
Definition truthy_opt (o : option pystr) : bool :=
  match o with
  | Some s => truthy s
  | None => false
  end.

(** ** Fingerprint *)

Definition get_job_id_from_link (link : pystr) : pystr :=
  Sha1.hexdigest (encode_utf8 link).

(** ** The outside world

    Every network call of one run is numbered in the order it is issued;
    the world answers the [n]-th search request and the [n]-th message
    post.  An answer is a response or a raised transport error. *)

Record World := mkWorld {
  http_get : nat -> SearchParams -> Exc Response;
  http_post : nat -> pystr -> pystr -> pystr -> Exc Z
}.

Section Program.

Context `{PyLib}.

(** *** Record extractor and listing fetcher *)

(** The loop over [CONTRACT_KEYWORDS] with its [break]: the first keyword
    whose upper-cased form occurs in [whole_text]. *)
Definition detect_contract (whole_text : pystr) : option pystr :=
  find (fun kw => contains (str_upper kw) whole_text) CONTRACT_KEYWORDS.

Definition whole_text_of (title company loc summary : pystr) : pystr :=
  str_upper (join (u " ") [title; company; loc; summary]).

(** The body of [for c in cards]; [None] is the [continue] taken when the
    card has no usable [href]. *)
Definition card_to_job (c : Card) : option Job :=
  let title :=
    match card_h2 c with
    | Some t => t
    | None => firstn 80 (card_text c)
    end in
  let href :=
    if truthy_opt (card_href c) then card_href c
    else match card_a_href c with
         | Some h => h
         | None => None
         end in
  if negb (truthy_opt href) then None
  else
    let link := urljoin (u "https://fr.indeed.com") (default [] href) in
    let company :=
      default [] (or_tag (card_companyName c) (card_company c)) in
    let loc :=
      default [] (or_tag (card_companyLocation c) (card_location c)) in
    let summary :=
      default [] (or_tag (card_job_snippet c) (card_summary c)) in
    let whole_text := whole_text_of title company loc summary in
    let contract := detect_contract whole_text in
    Some (mkJob title company loc summary link contract
                (get_job_id_from_link link)).

Fixpoint add_cards (cards : list Card) (results : list Job) : list Job :=
  match cards with
  | [] => results
  | c :: rest =>
      match card_to_job c with
      | Some j => add_cards rest (results ++ [j])
      | None => add_cards rest results
      end
  end.

Definition select_cards (s : Soup) : list Card :=
  let cards := or_list (sel_tapItem s) (sel_job_seen_beacon s) in
  match cards with
  | [] => sel_article s
  | _ :: _ => cards
  end.

(** [for page in range(max_pages)], [todo] pages left, [n] the number of
    search requests issued so far.  Every [break] returns what has been
    collected. *)
Fixpoint page_loop (W : World) (query location : pystr)
         (todo page n : nat) (results : list Job) : list Job * nat :=
  match todo with
  | O => (results, n)
  | S todo' =>
      let url := make_indeed_url query location (page * 10) in
      match http_get W n url with
      | Raise _ => (results, S n)
      | Ok resp =>
          if negb (status_code resp =? 200)%Z then (results, S n)
          else
            match select_cards (soup resp) with
            | [] => (results, S n)
            | cards =>
                page_loop W query location todo' (S page) (S n)
                          (add_cards cards results)
            end
      end
  end.

Definition parse_indeed_search (W : World) (query location : pystr)
           (max_pages n : nat) : list Job * nat :=
  page_loop W query location max_pages 0 n [].

(** *** Eligibility filter *)

Definition loc_of (j : Job) : pystr := str_lower (job_location j).

Definition text_of (j : Job) : pystr :=
  str_lower (job_title j ++ u " " ++ job_summary j).

Definition is_remote (j : Job) : bool :=
  contains (u "télétravail") (loc_of j)
  || contains (u "télétravail") (text_of j)
  || contains (u "teletravail") (text_of j)
  || contains (u "remote") (text_of j).

Definition in_region (region_cities : list pystr) (j : Job) : bool :=
  existsb (fun city => contains (str_lower city) (loc_of j)
                       || contains (str_lower city) (text_of j))
          region_cities.

Definition locality_gate (region_cities : list pystr)
           (accept_remote : bool) (j : Job) : bool :=
  if accept_remote && is_remote j then true
  else in_region region_cities j.

(** [any(kw.upper() in j["contract"].upper() for kw in CONTRACT_KEYWORDS)] *)
Definition tag_accepted (tag : pystr) : bool :=
  existsb (fun kw => contains (str_upper kw) (str_upper tag))
          CONTRACT_KEYWORDS.

(** The keywords looked for in the summary. *)
Definition SUMMARY_KEYWORDS : list pystr :=
  [u "cdi"; u "cdd"; u "intérim"; u "interim"].

Definition summary_accepted (j : Job) : bool :=
  existsb (fun kw => contains (str_lower kw) (str_lower (job_summary j)))
          SUMMARY_KEYWORDS.

(** [false] is the [continue] of the contract block. *)
Definition contract_gate (accept_contracts : bool) (j : Job) : bool :=
  if accept_contracts then
    if truthy_opt (job_contract j) then
      if negb (tag_accepted (default [] (job_contract j))) then
        if negb (summary_accepted j) then false else true
      else true
    else true
  else true.

Fixpoint filter_by_region_and_contract (jobs : list Job)
         (region_cities : list pystr) (accept_contracts accept_remote : bool)
  : list Job :=
  match jobs with
  | [] => []
  | j :: rest =>
      let filtered :=
        filter_by_region_and_contract rest region_cities accept_contracts
                                      accept_remote in
      if negb (locality_gate region_cities accept_remote j) then filtered
      else if contract_gate accept_contracts j then j :: filtered
      else filtered
  end.

End Program.

(** ** Notifier *)

(** [send_telegram_message]: the [n]-th post of the run.  The result is an
    [Exc] so that "does not raise" is a statement about the function. *)
Definition send_telegram_message (W : World) (n : nat)
           (token chat_id text : pystr) : Exc bool :=
  try_except
    (let! r := http_post W n token chat_id text in
     Ok (r =? 200)%Z)
    (fun _ => Ok false).

Definition format_job_message (job : Job) : pystr :=
  let lines :=
    [u "🔔 " ++ job_title job;
     u "🏢 " ++ job_company job ++ u " — 📍 " ++ job_location job] in
  let lines :=
    if truthy_opt (job_contract job)
    then lines ++ [u "🧾 Contrat: " ++ default [] (job_contract job)]
    else lines in
  let lines := lines ++ [job_link job] in
  let lines :=
    if truthy (job_summary job)
    then lines ++ [[]]
               ++ [firstn 400 (job_summary job)
                   ++ (if (400 <? length (job_summary job))%nat
                       then u "..." else [])]
    else lines in
  join [10] lines.                  (* "\n".join(lines) *)

(** ** Fingerprint store *)

(** A deserialized JSON document. *)
#[warnings="-register-all"]
Inductive json : Type :=
| JNull
| JBool (b : bool)
| JNum (z : Z)
| JStr (s : pystr)
| JArr (l : list json)
| JObj (kvs : list (pystr * json)).

(** The persistence file: absent ([os.path.exists] is false), or present
    with the outcome of opening it and of [json.load]. *)
Inductive SeenFile : Type :=
| Missing
| Present (read : Exc json).

(** Lists and dicts are unhashable. *)
Definition hashable (v : json) : bool :=
  match v with
  | JArr _ | JObj _ => false
  | _ => true
  end.

Definition strings_of (l : list json) : list pystr :=
  flat_map (fun v => match v with JStr s => [s] | _ => [] end) l.

(** [set(data)].  The seen set is only ever compared with record ids, which
    are strings, and a string equals no value of another type: the set is
    represented by its string members. *)
Definition py_set (data : json) : Exc (gset pystr) :=
  match data with
  | JArr l =>
      if forallb hashable l then Ok (list_to_set (strings_of l))
      else Raise TypeError
  | JStr s => Ok (list_to_set (map (fun c => [c]) s))
  | JObj kvs => Ok (list_to_set (map fst kvs))
  | JNull | JBool _ | JNum _ => Raise TypeError
  end.

Definition load_seen (f : SeenFile) : Exc (gset pystr) :=
  match f with
  | Missing => Ok ∅
  | Present read =>
      try_except
        (let! data := read in
         py_set data)
        (fun _ => Ok ∅)
  end.

(** ** Poll loop *)

(** What the orchestrator does that the claims speak of; each event is
    logged with the seen set as it is right after the event. *)
Inductive Event : Type :=
| EvCollect (j : Job)               (* all_new.append(j); seen.add(j["id"]) *)
| EvNotify (j : Job) (success : bool) (* send_telegram_message returned *)
| EvSave.                           (* save_seen(seen) *)

Record State := mkState {
  seen : gset pystr;
  gets : nat;                       (* search requests issued *)
  posts : nat;                      (* messages posted *)
  trace : list (Event * gset pystr)
}.

Definition log (e : Event) (st : State) : State :=
  mkState (seen st) (gets st) (posts st) (trace st ++ [(e, seen st)]).

Definition seen_add (i : pystr) (st : State) : State :=
  mkState ({[i]} ∪ seen st) (gets st) (posts st) (trace st).

(** A Python [for] loop over a list, threading the loop state. *)
Definition for_each {A S : Type} (xs : list A) (body : A -> S -> S) (s : S)
  : S :=
  fold_left (fun s x => body x s) xs s.

Section Orchestrator.

Context `{PyLib}.
Variable W : World.
Variables TELEGRAM_BOT_TOKEN TELEGRAM_CHAT_ID : pystr.

Definition fetch (query location : pystr) (st : State)
  : list Job * State :=
  let '(jobs, n) := parse_indeed_search W query location 1 (gets st) in
  (jobs, mkState (seen st) n (posts st) (trace st)).

(** [if j["id"] not in seen: all_new.append(j); seen.add(j["id"])] *)
Definition collect (j : Job) (acc : list Job * State) : list Job * State :=
  let '(all_new, st) := acc in
  if decide (job_id j ∈ seen st) then (all_new, st)
  else (all_new ++ [j], log (EvCollect j) (seen_add (job_id j) st)).

Definition regional_sweep (acc : list Job * State) : list Job * State :=
  for_each TITLES (fun title =>
    for_each BRETAGNE_CITIES (fun city acc =>
      let '(all_new, st) := acc in
      let '(jobs, st) := fetch title city st in
      let candidates :=
        filter_by_region_and_contract jobs BRETAGNE_CITIES true false in
      for_each candidates collect (all_new, st))) acc.

(** The re-check of the remote sweep. *)
Definition remote_recheck (j : Job) : bool :=
  let s := str_lower (job_location j ++ u " " ++ job_summary j) in
  contains (u "télétravail") s || contains (u "remote") s.

Definition remote_sweep (acc : list Job * State) : list Job * State :=
  for_each TITLES (fun title acc =>
    let '(all_new, st) := acc in
    let query_remote := title ++ u " télétravail" in
    let '(jobs, st) := fetch query_remote (u "France") st in
    let candidates :=
      filter_by_region_and_contract jobs BRETAGNE_CITIES true true in
    for_each candidates (fun j acc =>
      if remote_recheck j then collect j acc else acc) (all_new, st)) acc.

(** [for j in all_new]: format, send, print the outcome. *)
Fixpoint notify_all (all_new : list Job) (st : State) : Exc State :=
  match all_new with
  | [] => Ok st
  | j :: rest =>
      let msg := format_job_message j in
      let! success :=
        send_telegram_message W (posts st) TELEGRAM_BOT_TOKEN
                              TELEGRAM_CHAT_ID msg in
      notify_all rest
        (log (EvNotify j success)
             (mkState (seen st) (gets st) (S (posts st)) (trace st)))
  end.

(** One pass of the [while True] body, up to the final sleep.  Writing
    the seen file is taken to succeed. *)
Definition main_cycle (st : State) : Exc State :=
  let '(all_new, st) := remote_sweep (regional_sweep ([], st)) in
  match all_new with
  | [] => Ok st
  | _ :: _ =>
      let! st := notify_all all_new st in
      Ok (log EvSave st)
  end.

Fixpoint cycles (n : nat) (st : State) : Exc State :=
  match n with
  | O => Ok st
  | S n' =>
      let! st := main_cycle st in
      cycles n' st
  end.

End Orchestrator.


(** The interval slept between two passes. *)
Definition sleep_sec (CHECK_INTERVAL : Z) : Z := Z.max MIN_SLEEP CHECK_INTERVAL.

(** ** Reading the claims

    Definitions that follow the words of the specification, to be compared
    with what the code computes. *)

Section Readings.

Context `{PyLib}.

(** The marker list of the specification, each marker looked for in the
    location and in the title/summary text. *)
Definition REMOTE_MARKERS : list pystr :=
  [u "télétravail"; u "teletravail"; u "remote"].

Definition is_remote_spec (j : Job) : bool :=
  existsb (fun m => contains m (loc_of j) || contains m (text_of j))
          REMOTE_MARKERS.

(** The accepted-keyword test of the claim on the summary: the keyword list
    of the tag check, compared case-insensitively. *)
Definition summary_has_contract_keyword (j : Job) : bool :=
  existsb (fun kw => contains (str_lower kw) (str_lower (job_summary j)))
          CONTRACT_KEYWORDS.

(** What [card_to_job] guarantees about the record it builds. *)
Definition extracted (j : Job) : Prop :=
  (exists href, href <> []
                /\ job_link j = urljoin (u "https://fr.indeed.com") href)
  /\ job_id j = get_job_id_from_link (job_link j)
  /\ job_contract j
     = detect_contract (whole_text_of (job_title j) (job_company j)
                                      (job_location j) (job_summary j)).

End Readings.

(** ** Reading the trace *)

(** The records collected, and the records notified, in a piece of trace. *)
Definition collected (evs : list (Event * gset pystr)) : list Job :=
  flat_map (fun ev => match fst ev with EvCollect j => [j] | _ => [] end) evs.

Definition notified (evs : list (Event * gset pystr)) : list Job :=
  flat_map (fun ev => match fst ev with EvNotify j _ => [j] | _ => [] end) evs.

Section TraceShapes.

Variable W : World.
Variables token chat_id : pystr.

(** The events of collecting [news] one after the other from seen set [s]. *)
Fixpoint collect_events (news : list Job) (s : gset pystr)
  : list (Event * gset pystr) :=
  match news with
  | [] => []
  | j :: rest =>
      (EvCollect j, {[job_id j]} ∪ s)
        :: collect_events rest ({[job_id j]} ∪ s)
  end.

Fixpoint ids_of (news : list Job) : gset pystr :=
  match news with
  | [] => ∅
  | j :: rest => {[job_id j]} ∪ ids_of rest
  end.

Definition delivered (p : nat) (text : pystr) : bool :=
  match http_post W p token chat_id text with
  | Ok status => (status =? 200)%Z
  | Raise _ => false
  end.

(** The events of notifying [all_new] from post number [p], the seen set
    being [s]. *)
Fixpoint notify_events (all_new : list Job) (p : nat) (s : gset pystr)
  : list (Event * gset pystr) :=
  match all_new with
  | [] => []
  | j :: rest =>
      (EvNotify j (delivered p (format_job_message j)), s)
        :: notify_events rest (S p) s
  end.

(** [acc'] is [acc] after collecting some more records, and nothing else
    that touches the seen set, the trace or the post counter. *)
Definition extends (acc acc' : list Job * State) : Prop :=
  exists news,
    fst acc' = fst acc ++ news
    /\ trace (snd acc')
       = trace (snd acc) ++ collect_events news (seen (snd acc))
    /\ seen (snd acc') = ids_of news ∪ seen (snd acc)
    /\ posts (snd acc') = posts (snd acc).

End TraceShapes.

(** ** Concrete records and worlds *)

Module Demo.

(** A listing whose only remote marker is its location field. *)
Definition remote_location_job : Job :=
  mkJob (u "Agent de saisie") (u "ACME") (u "Remote") []
        (u "https://fr.indeed.com/rc/clk?jk=7") None
        (get_job_id_from_link (u "https://fr.indeed.com/rc/clk?jk=7")).

(** A Paris listing that mentions remote work in its summary. *)
Definition paris_remote_job : Job :=
  mkJob (u "Opérateur de saisie") (u "ACME") (u "Paris")
        (u "Poste en Télétravail complet")
        (u "https://fr.indeed.com/rc/clk?jk=8") None
        (get_job_id_from_link (u "https://fr.indeed.com/rc/clk?jk=8")).

(** A Rennes listing with no contract keyword anywhere. *)
Definition rennes_job : Job :=
  mkJob (u "Opérateur de saisie") [] (u "Rennes") []
        (u "https://fr.indeed.com/rc/clk?jk=9") None
        (get_job_id_from_link (u "https://fr.indeed.com/rc/clk?jk=9")).

(** Records tagged by some other producer than the extractor. *)
Definition stage_contrat_job : Job :=
  mkJob (u "Agent de saisie") [] (u "Rennes") (u "Contrat de 6 mois")
        (u "https://fr.indeed.com/rc/clk?jk=10") (Some (u "Stage"))
        (get_job_id_from_link (u "https://fr.indeed.com/rc/clk?jk=10")).

Definition stage_cdd_job : Job :=
  mkJob (u "Agent de saisie") [] (u "Rennes") (u "CDD de 6 mois")
        (u "https://fr.indeed.com/rc/clk?jk=11") (Some (u "Stage"))
        (get_job_id_from_link (u "https://fr.indeed.com/rc/clk?jk=11")).

Definition card_rennes : Card :=
  mkCard (Some (u "Opérateur de saisie")) [] (Some (u "/rc/clk?jk=1")) None
         (Some (u "ACME")) None (Some (u "Rennes")) None
         (Some (u "Mission en intérim, 3 mois")) None.

Definition card_brest : Card :=
  mkCard (Some (u "Saisie de données")) [] None
         (Some (Some (u "/rc/clk?jk=2")))
         None (Some (u "Breizh Data")) None (Some (u "Brest")) None None.

Definition card_no_link : Card :=
  mkCard (Some (u "Saisie")) [] None (Some None)
         None None (Some (u "Vannes")) None None None.

Definition empty_soup : Soup := mkSoup [] [] [].

(** The first search answers one page of three cards, every later search
    is refused; the first post is refused with status 500, the second
    fails in transport. *)
Definition world : World :=
  mkWorld
    (fun n _ =>
       if (n =? 0)%nat
       then Ok (mkResponse 200
                  (mkSoup [card_rennes; card_no_link; card_brest] [] []))
       else Ok (mkResponse 503 empty_soup))
    (fun n _ _ _ =>
       if (n =? 0)%nat then Ok 500%Z else Raise RequestException).

(** A messaging endpoint that answers every post with [201 Created]. *)
Definition world_201 : World :=
  mkWorld (fun _ _ => Raise RequestException) (fun _ _ _ _ => Ok 201%Z).

Definition start : State := mkState ∅ 0 0 [].

(** The record [card_rennes] is turned into. *)
Definition job_rennes : Job :=
  mkJob (u "Opérateur de saisie") (u "ACME") (u "Rennes")
        (u "Mission en intérim, 3 mois")
        (u "https://fr.indeed.com/rc/clk?jk=1") (Some (u "Intérim"))
        (get_job_id_from_link (u "https://fr.indeed.com/rc/clk?jk=1")).

(** The state after one pass over [world] from [start]. *)
Definition final : State :=
  match main_cycle world (u "token") (u "42") start with
  | Ok st => st
  | Raise _ => start
  end.

End Demo.

(** ** Further readings of the code *)


(** The list [lines] that [format_job_message] joins with newlines. *)
Definition message_lines (job : Job) : list pystr :=
  [u "🔔 " ++ job_title job;
   u "🏢 " ++ job_company job ++ u " — 📍 " ++ job_location job]
  ++ (if truthy_opt (job_contract job)
      then [u "🧾 Contrat: " ++ default [] (job_contract job)]
      else [])
  ++ [job_link job]
  ++ (if truthy (job_summary job)
      then [[]; firstn 400 (job_summary job)
                ++ (if (400 <? length (job_summary job))%nat
                    then u "..." else [])]
      else []).

(** A lower-case hexadecimal digit, as a code point. *)
Definition is_hex_digit (c : N) : Prop :=
  (48 <= c <= 57) \/ (97 <= c <= 102).


(** [news] is collected record after record from the seen set [s]: the id
    of each record is neither in [s] nor the id of an earlier record. *)
Fixpoint fresh_from (s : gset pystr) (news : list Job) : Prop :=
  match news with
  | [] => True
  | j :: rest => (job_id j ∉ s) /\ fresh_from ({[job_id j]} ∪ s) rest
  end.

(** What the two sweeps of the poll loop ask of a record before they
    collect it: it comes from the fetcher, the contract gate keeps it, and
    it is in the region or passes both the filter's remote test and the
    re-check of the remote sweep. *)
Definition eligible `{PyLib} (j : Job) : Prop :=
  extracted j
  /\ contract_gate true j = true
  /\ (in_region BRETAGNE_CITIES j = true
      \/ (is_remote j = true /\ remote_recheck j = true)).

(** [acc'] is [acc] after [g] search requests and the collection of fresh
    eligible records. *)
Definition sweeps `{PyLib} (g : nat) (acc acc' : list Job * State) : Prop :=
  exists news,
    fst acc' = fst acc ++ news
    /\ trace (snd acc')
       = trace (snd acc) ++ collect_events news (seen (snd acc))
    /\ seen (snd acc') = ids_of news ∪ seen (snd acc)
    /\ posts (snd acc') = posts (snd acc)
    /\ gets (snd acc') = (gets (snd acc) + g)%nat
    /\ fresh_from (seen (snd acc)) news
    /\ Forall eligible news.

(** The events one pass adds to the trace when it collects [news] from the
    seen set [s], the first post being number [p]. *)
Definition cycle_events (W : World) (token chat_id : pystr)
           (news : list Job) (p : nat) (s : gset pystr)
  : list (Event * gset pystr) :=
  collect_events news s
  ++ match news with
     | [] => []
     | _ :: _ =>
         notify_events W token chat_id news p (ids_of news ∪ s)
         ++ [(EvSave, ids_of news ∪ s)]
     end.

(** The search requests of one pass: one per title and city, one per
    title. *)
Definition REQUESTS_PER_CYCLE : nat :=
  (length TITLES * length BRETAGNE_CITIES + length TITLES)%nat.

(** A Unicode code point. *)
Definition is_code_point (c : N) : Prop := c < 1114112.

(** * Properties *)

(** ** Strings *)

Example sha1_abc :
  Sha1.hexdigest (encode_utf8 (u "abc"))
  = u "a9993e364706816aba3e25717850c26c9cd0d89d".
Proof. vm_compute. reflexivity. Qed.

Example sha1_empty :
  Sha1.hexdigest [] = u "da39a3ee5e6b4b0d3255bfef95601890afd80709".
Proof. vm_compute. reflexivity. Qed.

Example sha1_two_blocks :
  Sha1.hexdigest
    (encode_utf8 (u "abcdbcdecdefdefgefghfghighijhijkijkljklmklmnlmnomnopnopq"))
  = u "84983e441c3bd26ebaae4aa1f95129e5e54670f1".
Proof. vm_compute. reflexivity. Qed.

Example utf8_literal : u "télé" = [116; 233; 108; 233].
Proof. reflexivity. Qed.

Example utf8_encode_e_acute :
  encode_utf8 [233; 8364] = [195; 169; 226; 130; 172].
Proof. reflexivity. Qed.

Lemma starts_with_refl (s : pystr) : starts_with s s = true.
Proof.
  induction s as [|c s IH]; simpl; [reflexivity|].
  rewrite N.eqb_refl. exact IH.
Qed.

Lemma contains_refl (s : pystr) : contains s s = true.
Proof.
  destruct s; simpl; [reflexivity|].
  rewrite N.eqb_refl, starts_with_refl. reflexivity.
Qed.

(** ** Eligibility filter *)

Section FilterFacts.

Context `{PyLib}.

(** The loop keeps exactly the records that pass both gates, in order. *)
Lemma filter_by_region_and_contract_spec jobs region_cities ac ar :
  filter_by_region_and_contract jobs region_cities ac ar
  = List.filter (fun j => locality_gate region_cities ar j
                          && contract_gate ac j) jobs.
Proof.
  induction jobs as [|j rest IH]; simpl; [reflexivity|].
  rewrite IH.
  destruct (locality_gate region_cities ar j); simpl; [|reflexivity].
  destruct (contract_gate ac j); reflexivity.
Qed.

Lemma filter_by_region_and_contract_In jobs region_cities ac ar j :
  In j (filter_by_region_and_contract jobs region_cities ac ar)
  <-> In j jobs /\ locality_gate region_cities ar j = true
      /\ contract_gate ac j = true.
Proof.
  rewrite filter_by_region_and_contract_spec, filter_In, andb_true_iff.
  tauto.
Qed.

(** What the code computes is sound for the specification's markers. *)
Lemma is_remote_sound j : is_remote j = true -> is_remote_spec j = true.
Proof.
  unfold is_remote, is_remote_spec, REMOTE_MARKERS. simpl.
  destruct (contains (u "télétravail") (loc_of j)); simpl; [reflexivity|].
  destruct (contains (u "télétravail") (text_of j)); simpl; [reflexivity|].
  destruct (contains (u "teletravail") (text_of j)); simpl;
    [intros _; now rewrite orb_true_r|].
  intros ->. now rewrite !orb_true_r.
Qed.

End FilterFacts.

(** C1 (fails on the code).  The claim wants every remote marker looked for
    in the location field too.  On a record whose location is "Remote" the
    marker "remote" occurs in the lower-cased location, the specification's
    [is_remote_spec] is true and the re-check of the remote sweep accepts
    the record, but the code's [is_remote] is false: the record is dropped
    by the filter of the remote sweep. *)
Theorem is_remote_ignores_location_markers :
  contains (u "remote") (loc_of Demo.remote_location_job) = true
  /\ is_remote_spec Demo.remote_location_job = true
  /\ remote_recheck Demo.remote_location_job = true
  /\ is_remote Demo.remote_location_job = false
  /\ filter_by_region_and_contract [Demo.remote_location_job]
       BRETAGNE_CITIES true true = [].
Proof. vm_compute. repeat split; reflexivity. Qed.

(** C2 (as stated, refuted).  A record tagged "Stage" whose summary reads
    "Contrat de 6 mois" passes the locality gate and has an accepted
    contract keyword ("Contrat") in its summary, yet the contract gate
    rejects it: the summary is searched for four keywords only. *)
Lemma contract_gate_rejects_contrat_in_summary :
  truthy_opt (job_contract Demo.stage_contrat_job) = true
  /\ tag_accepted (u "Stage") = false
  /\ locality_gate BRETAGNE_CITIES false Demo.stage_contrat_job = true
  /\ summary_has_contract_keyword Demo.stage_contrat_job = true
  /\ contract_gate true Demo.stage_contrat_job = false
  /\ filter_by_region_and_contract [Demo.stage_contrat_job]
       BRETAGNE_CITIES true false = [].
Proof. vm_compute. repeat split; reflexivity. Qed.

(** C2 (amended).  With [accept_contracts] true, a record whose non-empty
    tag contains none of the accepted contract keywords is kept by the
    contract gate exactly when its lower-cased summary contains one of
    "cdi", "cdd", "intérim", "interim"; among the records that pass the
    locality gate these are the ones in the output. *)
Theorem contract_gate_unrecognised_tag `{PyLib}
        (jobs : list Job) (region_cities : list pystr) (ar : bool)
        (j : Job) (tag : pystr) :
  job_contract j = Some tag ->
  tag <> [] ->
  tag_accepted tag = false ->
  (summary_accepted j = false -> contract_gate true j = false)
  /\ (summary_accepted j = true -> contract_gate true j = true)
  /\ (In j (filter_by_region_and_contract jobs region_cities true ar)
      <-> In j jobs /\ locality_gate region_cities ar j = true
          /\ summary_accepted j = true).
Proof.
  intros Htag Hne Hacc.
  assert (Hgate : contract_gate true j = summary_accepted j).
  { unfold contract_gate. rewrite Htag. simpl.
    destruct tag as [|c tag]; [congruence|]. simpl.
    rewrite Hacc. simpl. destruct (summary_accepted j); reflexivity. }
  split; [|split].
  - intros E. rewrite Hgate. exact E.
  - intros E. rewrite Hgate. exact E.
  - rewrite filter_by_region_and_contract_In, Hgate. tauto.
Qed.

Lemma contract_gate_unrecognised_tag_witness :
  contract_gate true Demo.stage_cdd_job = true
  /\ In Demo.stage_cdd_job
        (filter_by_region_and_contract [Demo.stage_cdd_job]
           BRETAGNE_CITIES true false).
Proof.
  destruct (contract_gate_unrecognised_tag [Demo.stage_cdd_job]
              BRETAGNE_CITIES false Demo.stage_cdd_job (u "Stage"))
    as (_ & Hkeep & Hin).
  - reflexivity.
  - vm_compute. discriminate.
  - vm_compute. reflexivity.
  - split.
    + apply Hkeep. vm_compute. reflexivity.
    + apply Hin. split; [left; reflexivity|].
      split; vm_compute; reflexivity.
Defined.

(** C3.  With [accept_remote] true a record with [is_remote] true passes
    the locality gate whatever [in_region] says, and is in the output
    whenever it passes the contract gate. *)
Theorem remote_is_an_alternate_admission_path `{PyLib}
        (jobs : list Job) (region_cities : list pystr) (ac : bool) (j : Job) :
  In j jobs ->
  is_remote j = true ->
  locality_gate region_cities true j = true
  /\ (contract_gate ac j = true ->
      In j (filter_by_region_and_contract jobs region_cities ac true)).
Proof.
  intros Hin Hrem.
  assert (Hloc : locality_gate region_cities true j = true).
  { unfold locality_gate. rewrite Hrem. reflexivity. }
  split; [exact Hloc|].
  intros Hc. apply filter_by_region_and_contract_In. auto.
Qed.

Lemma remote_is_an_alternate_admission_path_witness :
  in_region BRETAGNE_CITIES Demo.paris_remote_job = false
  /\ locality_gate BRETAGNE_CITIES true Demo.paris_remote_job = true
  /\ In Demo.paris_remote_job
        (filter_by_region_and_contract [Demo.paris_remote_job]
           BRETAGNE_CITIES true true).
Proof.
  destruct (remote_is_an_alternate_admission_path [Demo.paris_remote_job]
              BRETAGNE_CITIES true Demo.paris_remote_job) as [Hloc Hkeep].
  - left. reflexivity.
  - vm_compute. reflexivity.
  - split; [vm_compute; reflexivity|].
    split; [exact Hloc|].
    apply Hkeep. vm_compute. reflexivity.
Defined.

(** C4.  A record with no contract tag passes the contract gate whatever
    [accept_contracts] is, and is in the output as soon as it passes the
    locality gate. *)
Theorem untagged_record_passes_contract_gate `{PyLib}
        (jobs : list Job) (region_cities : list pystr) (ac ar : bool)
        (j : Job) :
  job_contract j = None ->
  contract_gate ac j = true
  /\ (In j jobs ->
      locality_gate region_cities ar j = true ->
      In j (filter_by_region_and_contract jobs region_cities ac ar)).
Proof.
  intros Hnone.
  assert (Hc : contract_gate ac j = true).
  { unfold contract_gate. rewrite Hnone. simpl. destruct ac; reflexivity. }
  split; [exact Hc|].
  intros Hin Hloc. apply filter_by_region_and_contract_In. auto.
Qed.

Lemma untagged_record_passes_contract_gate_witness :
  contract_gate true Demo.rennes_job = true
  /\ contract_gate false Demo.rennes_job = true
  /\ In Demo.rennes_job
        (filter_by_region_and_contract [Demo.paris_remote_job; Demo.rennes_job]
           BRETAGNE_CITIES true false).
Proof.
  split; [|split].
  - apply (untagged_record_passes_contract_gate [] [] true false
             Demo.rennes_job). reflexivity.
  - apply (untagged_record_passes_contract_gate [] [] false false
             Demo.rennes_job). reflexivity.
  - apply (untagged_record_passes_contract_gate
             [Demo.paris_remote_job; Demo.rennes_job] BRETAGNE_CITIES
             true false Demo.rennes_job).
    + reflexivity.
    + right. left. reflexivity.
    + vm_compute. reflexivity.
Defined.

Lemma filter_twice {A : Type} (f : A -> bool) (l : list A) :
  List.filter f (List.filter f l) = List.filter f l.
Proof.
  induction l as [|x l IH]; simpl; [reflexivity|].
  destruct (f x) eqn:E; simpl; [rewrite E, IH|]; auto.
Qed.

(** C6.  Filtering the filter's output again, with the same region list and
    flags, gives that output back: same records, same order. *)
Theorem filter_by_region_and_contract_idempotent `{PyLib}
        (jobs : list Job) (region_cities : list pystr)
        (accept_contracts accept_remote : bool) :
  filter_by_region_and_contract
    (filter_by_region_and_contract jobs region_cities accept_contracts
                                   accept_remote)
    region_cities accept_contracts accept_remote
  = filter_by_region_and_contract jobs region_cities accept_contracts
                                  accept_remote.
Proof.
  rewrite !filter_by_region_and_contract_spec. apply filter_twice.
Qed.

(** ** Record extractor *)

Section ExtractorFacts.

Context `{PyLib}.

Lemma card_to_job_extracted c j : card_to_job c = Some j -> extracted j.
Proof.
  unfold card_to_job.
  set (href := if truthy_opt (card_href c) then card_href c
               else match card_a_href c with
                    | Some h => h
                    | None => None
                    end).
  destruct (truthy_opt href) eqn:Ht; simpl; [|discriminate].
  intros [= <-]. unfold extracted. simpl.
  split; [|split; reflexivity].
  exists (default [] href). split; [|reflexivity].
  destruct href as [[|x s]|]; simpl in *; congruence.
Qed.

Lemma add_cards_In cards : forall results j,
  In j (add_cards cards results) ->
  In j results \/ exists c, In c cards /\ card_to_job c = Some j.
Proof.
  induction cards as [|c cards IH]; simpl; intros results j Hin.
  - left. exact Hin.
  - destruct (card_to_job c) as [j'|] eqn:E.
    + apply IH in Hin. destruct Hin as [Hin|(c' & Hc' & E')].
      * apply in_app_or in Hin. destruct Hin as [Hin|[<-|[]]].
        -- left. exact Hin.
        -- right. exists c. auto.
      * right. exists c'. auto.
    + apply IH in Hin. destruct Hin as [Hin|(c' & Hc' & E')].
      * left. exact Hin.
      * right. exists c'. auto.
Qed.

Lemma page_loop_In W query location todo : forall page n results j,
  In j (fst (page_loop W query location todo page n results)) ->
  In j results \/ extracted j.
Proof.
  induction todo as [|todo IH]; simpl; intros page n results j Hin.
  - left. exact Hin.
  - destruct (http_get W n _) as [resp|e]; simpl in Hin; [|left; exact Hin].
    destruct (status_code resp =? 200)%Z; simpl in Hin; [|left; exact Hin].
    destruct (select_cards (soup resp)) as [|c cards] eqn:Ec;
      [left; exact Hin|].
    apply IH in Hin. destruct Hin as [Hin|Hex]; [|right; exact Hex].
    apply (add_cards_In (c :: cards)) in Hin.
    destruct Hin as [Hin|(c' & _ & E)].
    + left. exact Hin.
    + right. eapply card_to_job_extracted. exact E.
Qed.

Lemma parse_indeed_search_extracted W query location max_pages n j :
  In j (fst (parse_indeed_search W query location max_pages n)) ->
  extracted j.
Proof.
  intros Hin. apply page_loop_In in Hin. destruct Hin as [[]|Hex].
  exact Hex.
Qed.

Lemma keyword_tag_accepted kw :
  In kw CONTRACT_KEYWORDS -> tag_accepted kw = true.
Proof.
  intros Hin. unfold tag_accepted. apply existsb_exists.
  exists kw. split; [exact Hin|apply contains_refl].
Qed.

End ExtractorFacts.

(** C5.  The id is a function of the link string alone (equal links give
    equal ids), and every record the fetcher returns carries the id of its
    own link, the link being [urljoin] of the site's base and the card's
    href. *)
Theorem record_id_is_function_of_link `{PyLib}
        (W : World) (query location : pystr) (max_pages n : nat)
        (L1 L2 : pystr) (j : Job) :
  L1 = L2 ->
  In j (fst (parse_indeed_search W query location max_pages n)) ->
  get_job_id_from_link L1 = get_job_id_from_link L2
  /\ job_id j = get_job_id_from_link (job_link j)
  /\ exists href, job_link j = urljoin (u "https://fr.indeed.com") href.
Proof.
  intros HL Hin. split; [rewrite HL; reflexivity|].
  apply parse_indeed_search_extracted in Hin.
  destruct Hin as ((href & _ & Hlink) & Hid & _).
  split; [exact Hid|]. exists href. exact Hlink.
Qed.

Lemma record_id_is_function_of_link_witness :
  exists j,
    In j (fst (parse_indeed_search Demo.world (u "saisie") (u "Rennes") 1 0))
    /\ job_link j = u "https://fr.indeed.com/rc/clk?jk=1"
    /\ job_id j = u "b8a840c5548208862890b701456f380e0541e678".
Proof.
  pose (link := u "https://fr.indeed.com/rc/clk?jk=1").
  pose (j := mkJob (u "Opérateur de saisie") (u "ACME") (u "Rennes")
                   (u "Mission en intérim, 3 mois") link
                   (Some (u "Intérim")) (get_job_id_from_link link)).
  exists j.
  destruct (record_id_is_function_of_link Demo.world (u "saisie") (u "Rennes")
              1 0 link link j) as (_ & Hid & _).
  - reflexivity.
  - vm_compute. left. reflexivity.
  - split; [vm_compute; left; reflexivity|].
    split; [reflexivity|].
    rewrite Hid. vm_compute. reflexivity.
Defined.

(** C10.  For every record the fetcher returns, the contract field is the
    first entry of [CONTRACT_KEYWORDS], in list order, whose upper-cased
    form occurs in the upper-cased "title company location summary" text,
    or [None] when there is none; so a tag, when present, is a keyword of
    the list, it passes the filter's tag check, and the contract gate never
    rejects the record. *)
Theorem extracted_contract_is_a_keyword `{PyLib}
        (W : World) (query location : pystr) (max_pages n : nat) (j : Job) :
  In j (fst (parse_indeed_search W query location max_pages n)) ->
  job_contract j
  = find (fun kw =>
            contains (str_upper kw)
                     (str_upper (join (u " ") [job_title j; job_company j;
                                               job_location j; job_summary j])))
         CONTRACT_KEYWORDS
  /\ (job_contract j = None
      \/ exists kw, In kw CONTRACT_KEYWORDS /\ job_contract j = Some kw)
  /\ (forall tag, job_contract j = Some tag -> tag_accepted tag = true)
  /\ (forall accept_contracts, contract_gate accept_contracts j = true).
Proof.
  intros Hin. apply parse_indeed_search_extracted in Hin.
  destruct Hin as (_ & _ & Hc).
  unfold detect_contract, whole_text_of in Hc.
  assert (Hkw : forall tag, job_contract j = Some tag ->
                            In tag CONTRACT_KEYWORDS).
  { intros tag E. rewrite Hc in E. apply find_some in E. tauto. }
  split; [exact Hc|]. split; [|split].
  - destruct (job_contract j) as [tag|] eqn:E; [right|left; reflexivity].
    exists tag. split; [apply Hkw|]; reflexivity.
  - intros tag E. apply keyword_tag_accepted, Hkw, E.
  - intros ac. unfold contract_gate.
    destruct ac; [|reflexivity].
    destruct (job_contract j) as [tag|] eqn:E; simpl; [|reflexivity].
    rewrite (keyword_tag_accepted tag (Hkw tag eq_refl)).
    simpl. destruct (truthy tag); reflexivity.
Qed.

Lemma extracted_contract_is_a_keyword_witness :
  exists j,
    In j (fst (parse_indeed_search Demo.world (u "saisie") (u "Rennes") 1 0))
    /\ job_contract j = Some (u "Intérim")
    /\ tag_accepted (u "Intérim") = true
    /\ contract_gate true j = true.
Proof.
  pose (link := u "https://fr.indeed.com/rc/clk?jk=1").
  pose (j := mkJob (u "Opérateur de saisie") (u "ACME") (u "Rennes")
                   (u "Mission en intérim, 3 mois") link
                   (Some (u "Intérim")) (get_job_id_from_link link)).
  exists j.
  destruct (extracted_contract_is_a_keyword Demo.world (u "saisie")
              (u "Rennes") 1 0 j) as (_ & _ & Htag & Hgate).
  - vm_compute. left. reflexivity.
  - split; [vm_compute; left; reflexivity|].
    split; [reflexivity|].
    split; [apply Htag; reflexivity|apply Hgate].
Defined.

(** ** Fingerprint store *)

(** C8.  [load_seen] always returns a set: the empty set when the file is
    missing, when opening or deserializing it raises, or when building the
    set from the document raises; the set of the stored strings when the
    file holds an array of strings (more generally whatever [set(data)]
    gives when it does not raise). *)
Theorem load_seen_never_fails :
  (forall f, exists s, load_seen f = Ok s)
  /\ load_seen Missing = Ok ∅
  /\ (forall e, load_seen (Present (Raise e)) = Ok ∅)
  /\ (forall data e, py_set data = Raise e ->
                     load_seen (Present (Ok data)) = Ok ∅)
  /\ (forall data s, py_set data = Ok s ->
                     load_seen (Present (Ok data)) = Ok s)
  /\ (forall ids : list pystr,
        load_seen (Present (Ok (JArr (map JStr ids)))) = Ok (list_to_set ids)).
Proof.
  assert (Hraise : forall data e, py_set data = Raise e ->
                                  load_seen (Present (Ok data)) = Ok ∅).
  { intros data e E. simpl. rewrite E. reflexivity. }
  assert (Hok : forall data s, py_set data = Ok s ->
                               load_seen (Present (Ok data)) = Ok s).
  { intros data s E. simpl. rewrite E. reflexivity. }
  split; [|split; [|split; [|split; [|split]]]]; auto.
  - intros [|[data|e]].
    + exists ∅. reflexivity.
    + destruct (py_set data) as [s|e] eqn:E.
      * exists s. apply Hok, E.
      * exists ∅. eapply Hraise, E.
    + exists ∅. reflexivity.
  - intros ids. apply Hok. simpl.
    assert (Hh : forallb hashable (map JStr ids) = true).
    { induction ids; simpl; auto. }
    rewrite Hh. clear Hh. f_equal. f_equal.
    induction ids as [|i ids IH]; simpl; [|rewrite IH]; reflexivity.
Qed.

(** ** Notifier *)

(** C9 (as stated, refuted).  The endpoint answers [201], a 200-class
    status, and [send_telegram_message] reports failure. *)
Lemma send_telegram_message_fails_on_201 :
  http_post Demo.world_201 0 (u "token") (u "42") (u "hello") = Ok 201%Z
  /\ (200 <= 201 < 300)%Z
  /\ send_telegram_message Demo.world_201 0 (u "token") (u "42") (u "hello")
     = Ok false.
Proof. split; [reflexivity|]. split; [lia|reflexivity]. Qed.

(** C9 (amended).  [send_telegram_message] never raises; it returns true
    exactly when the endpoint answers with status 200, and false on every
    other status and on every transport error. *)
Theorem send_telegram_message_true_iff_200
        (W : World) (n : nat) (token chat_id text : pystr) :
  (exists b, send_telegram_message W n token chat_id text = Ok b)
  /\ (send_telegram_message W n token chat_id text = Ok true
      <-> http_post W n token chat_id text = Ok 200%Z)
  /\ (forall status, http_post W n token chat_id text = Ok status ->
                     status <> 200%Z ->
                     send_telegram_message W n token chat_id text = Ok false)
  /\ (forall e, http_post W n token chat_id text = Raise e ->
                send_telegram_message W n token chat_id text = Ok false).
Proof.
  unfold send_telegram_message.
  destruct (http_post W n token chat_id text) as [status|e]; simpl.
  - destruct (Z.eqb_spec status 200) as [->|Hne].
    + split; [eauto|]. split; [tauto|]. split; [|discriminate].
      intros status [= <-] Hne. congruence.
    + split; [eauto|]. split; [|split; [reflexivity|discriminate]].
      split; [discriminate|]. intros [= ->]. congruence.
  - split; [eauto|]. split; [|split; [discriminate|reflexivity]].
    split; discriminate.
Qed.

(** ** Poll loop *)

Section CycleFacts.

Context `{PyLib}.
Variable W : World.
Variables token chat_id : pystr.

Lemma collect_events_app n1 n2 s :
  collect_events (n1 ++ n2) s
  = collect_events n1 s ++ collect_events n2 (ids_of n1 ∪ s).
Proof.
  revert s. induction n1 as [|j n1 IH]; intros s; simpl.
  - f_equal. set_solver.
  - f_equal. rewrite IH. do 2 f_equal. set_solver.
Qed.

Lemma ids_of_app n1 n2 : ids_of (n1 ++ n2) = ids_of n2 ∪ ids_of n1.
Proof. induction n1 as [|j n1 IH]; simpl; [|rewrite IH]; set_solver. Qed.

Lemma extends_refl acc : extends acc acc.
Proof.
  exists []. simpl. rewrite !app_nil_r. repeat split. set_solver.
Qed.

Lemma extends_trans a b c : extends a b -> extends b c -> extends a c.
Proof.
  intros (n1 & Hn1 & Ht1 & Hs1 & Hp1) (n2 & Hn2 & Ht2 & Hs2 & Hp2).
  exists (n1 ++ n2). repeat split.
  - rewrite Hn2, Hn1, app_assoc. reflexivity.
  - rewrite Ht2, Ht1, Hs1, collect_events_app, app_assoc. reflexivity.
  - rewrite Hs2, Hs1, ids_of_app. set_solver.
  - congruence.
Qed.

Lemma collect_extends j acc : extends acc (collect j acc).
Proof.
  destruct acc as [all_new st]. unfold collect.
  destruct (decide (job_id j ∈ seen st)); [apply extends_refl|].
  exists [j]. simpl. repeat split. set_solver.
Qed.

Lemma for_each_extends {A : Type} (xs : list A)
      (body : A -> list Job * State -> list Job * State) :
  (forall x acc, extends acc (body x acc)) ->
  forall acc, extends acc (for_each xs body acc).
Proof.
  intros Hbody. unfold for_each.
  induction xs as [|x xs IH]; intros acc; simpl.
  - apply extends_refl.
  - eapply extends_trans; [apply Hbody|apply IH].
Qed.

Lemma fetch_extends query location all_new st :
  extends (all_new, st)
          (all_new, snd (fetch W query location st)).
Proof.
  unfold fetch. destruct (parse_indeed_search _ _ _ _ _) as [jobs n].
  exists []. simpl. rewrite !app_nil_r. repeat split. set_solver.
Qed.

Lemma regional_sweep_extends acc : extends acc (regional_sweep W acc).
Proof.
  unfold regional_sweep. apply for_each_extends. intros title.
  apply for_each_extends. intros city [all_new st].
  pose proof (fetch_extends title city all_new st) as Hf.
  destruct (fetch W title city st) as [jobs st1]. simpl in Hf.
  eapply extends_trans; [exact Hf|].
  apply for_each_extends. intros j. apply collect_extends.
Qed.

Lemma remote_sweep_extends acc : extends acc (remote_sweep W acc).
Proof.
  unfold remote_sweep. apply for_each_extends. intros title [all_new st].
  pose proof (fetch_extends (title ++ u " télétravail") (u "France")
                            all_new st) as Hf.
  destruct (fetch W _ _ st) as [jobs st1]. simpl in Hf.
  eapply extends_trans; [exact Hf|].
  apply for_each_extends. intros j acc'.
  destruct (remote_recheck j); [apply collect_extends|apply extends_refl].
Qed.

Lemma send_telegram_message_delivered p text :
  send_telegram_message W p token chat_id text
  = Ok (delivered W token chat_id p text).
Proof.
  unfold send_telegram_message, delivered.
  destruct (http_post W p token chat_id text); reflexivity.
Qed.

Lemma notify_all_spec all_new : forall st,
  notify_all W token chat_id all_new st
  = Ok (mkState (seen st) (gets st) (posts st + length all_new)
                (trace st
                 ++ notify_events W token chat_id all_new (posts st)
                                  (seen st))).
Proof.
  induction all_new as [|j rest IH]; intros st; simpl.
  - rewrite Nat.add_0_r, app_nil_r. destruct st; reflexivity.
  - rewrite send_telegram_message_delivered. simpl.
    rewrite IH. simpl. rewrite <- app_assoc.
    do 2 f_equal. lia.
Qed.

Lemma collect_events_lookup news : forall s m e s',
  collect_events news s !! m = Some (e, s') ->
  exists j, e = EvCollect j /\ news !! m = Some j.
Proof.
  induction news as [|j news IH]; intros s m e s' Hm; [discriminate|].
  destruct m as [|m]; simpl in Hm.
  - injection Hm as <- <-. exists j. auto.
  - apply IH in Hm. exact Hm.
Qed.

Lemma lookup_collect_events news : forall s m j,
  news !! m = Some j ->
  exists s', collect_events news s !! m = Some (EvCollect j, s')
             /\ job_id j ∈ s'.
Proof.
  induction news as [|j0 news IH]; intros s m j Hm; [discriminate|].
  destruct m as [|m]; simpl in Hm.
  - injection Hm as ->. eexists. split; [reflexivity|set_solver].
  - apply (IH ({[job_id j0]} ∪ s)) in Hm. exact Hm.
Qed.

Lemma lookup_ids_of news m j : news !! m = Some j -> job_id j ∈ ids_of news.
Proof.
  revert m. induction news as [|j0 news IH]; intros m Hm; [discriminate|].
  destruct m as [|m]; simpl in Hm.
  - injection Hm as ->. set_solver.
  - apply IH in Hm. set_solver.
Qed.

Lemma notify_events_lookup all_new : forall p s m e s',
  notify_events W token chat_id all_new p s !! m = Some (e, s') ->
  s' = s /\ exists j ok, e = EvNotify j ok /\ all_new !! m = Some j.
Proof.
  induction all_new as [|j rest IH]; intros p s m e s' Hm; [discriminate|].
  destruct m as [|m]; simpl in Hm.
  - injection Hm as <- <-. split; [reflexivity|]. eauto.
  - apply IH in Hm. exact Hm.
Qed.

Lemma length_collect_events news s :
  length (collect_events news s) = length news.
Proof. revert s. induction news; intros s; simpl; auto. Qed.

Lemma collected_collect_events news s :
  collected (collect_events news s) = news
  /\ notified (collect_events news s) = [].
Proof.
  revert s. induction news as [|j news IH]; intros s; simpl; [auto|].
  destruct (IH ({[job_id j]} ∪ s)) as [-> ->]. auto.
Qed.

Lemma notified_notify_events all_new p s :
  notified (notify_events W token chat_id all_new p s) = all_new
  /\ collected (notify_events W token chat_id all_new p s) = [].
Proof.
  revert p. induction all_new as [|j rest IH]; intros p; simpl; [auto|].
  destruct (IH (S p)) as [-> ->]. auto.
Qed.

End CycleFacts.

(** C7.  One pass of the loop always completes, and in the events it adds
    to the trace: every record collected is notified exactly once, in the
    order of collection, whatever the deliveries return; a notification of
    [j] comes strictly after the event that put [job_id j] in the seen set;
    the id is in the seen set when the notification returns, success or
    failure, in the seen set of every later event of the pass, and in the
    seen set the pass ends with.  The seen set only grows. *)
Theorem seen_before_notify_and_kept_on_failure `{PyLib}
        (W : World) (token chat_id : pystr) (st : State) :
  exists st' evs,
    main_cycle W token chat_id st = Ok st'
    /\ trace st' = trace st ++ evs
    /\ seen st ⊆ seen st'
    /\ notified evs = collected evs
    /\ forall i j ok s,
         evs !! i = Some (EvNotify j ok, s) ->
         (exists k s0, k < i /\ evs !! k = Some (EvCollect j, s0)
                       /\ job_id j ∈ s0)%nat
         /\ job_id j ∈ s
         /\ (forall k e s', (i <= k)%nat -> evs !! k = Some (e, s') ->
                            job_id j ∈ s')
         /\ job_id j ∈ seen st'.
Proof.
  unfold main_cycle.
  pose proof (extends_trans _ _ _
                (regional_sweep_extends W ([], st))
                (remote_sweep_extends W (regional_sweep W ([], st)))) as Hext.
  destruct (remote_sweep W (regional_sweep W ([], st))) as [all_new st1].
  destruct Hext as (news & Hnew & Htr & Hseen & _). simpl in *. subst news.
  destruct all_new as [|j0 rest] eqn:Enew.
  - exists st1, []. simpl in Htr.
    split; [reflexivity|]. split; [exact Htr|].
    split; [rewrite Hseen; set_solver|]. split; [reflexivity|].
    intros i j ok s Hi. destruct i; discriminate.
  - rewrite <- Enew in *. clear Enew.
    rewrite notify_all_spec. simpl.
    set (A := collect_events all_new (seen st)) in *.
    set (B := notify_events W token chat_id all_new (posts st1) (seen st1)).
    exists (log EvSave
              (mkState (seen st1) (gets st1) (posts st1 + length all_new)
                       (trace st1 ++ B))),
           (A ++ B ++ [(EvSave, seen st1)]).
    simpl.
    assert (HB : forall m e s', (B ++ [(EvSave, seen st1)]) !! m = Some (e, s')
                                -> s' = seen st1).
    { intros m e s' Hm. apply lookup_app_Some in Hm.
      destruct Hm as [Hm|[_ Hm]].
      - apply notify_events_lookup in Hm. tauto.
      - destruct (m - length B)%nat; [|discriminate].
        injection Hm as _ <-. reflexivity. }
    split; [reflexivity|].
    split; [rewrite Htr, <- !app_assoc; reflexivity|].
    split; [rewrite Hseen; set_solver|].
    split.
    { unfold notified, collected. rewrite !flat_map_app. simpl.
      destruct (collected_collect_events all_new (seen st)) as [Hc Hn].
      destruct (notified_notify_events W token chat_id all_new (posts st1)
                                       (seen st1)) as [Hn' Hc'].
      fold (collected A) (notified A) (collected B) (notified B).
      unfold A, B. rewrite Hc, Hn, Hn', Hc'. simpl.
      rewrite !app_nil_r. reflexivity. }
    intros i j ok s Hi.
    apply lookup_app_Some in Hi. destruct Hi as [Hi|[Hle Hi]].
    { apply collect_events_lookup in Hi. destruct Hi as (j' & Hj' & _).
      discriminate. }
    pose proof (HB _ _ _ Hi) as ->.
    apply lookup_app_Some in Hi. destruct Hi as [Hi|[_ Hi]].
    2:{ destruct (i - length A - length B)%nat; discriminate. }
    apply notify_events_lookup in Hi.
    destruct Hi as (_ & j' & ok' & [= <- <-] & Hj).
    assert (Hin : job_id j ∈ seen st1).
    { rewrite Hseen. apply lookup_ids_of in Hj. set_solver. }
    split; [|split; [exact Hin|split; [|exact Hin]]].
    + destruct (lookup_collect_events all_new (seen st) _ _ Hj)
        as (s0 & Hs0 & Hjs0).
      exists (i - length A)%nat, s0.
      apply lookup_lt_Some in Hj.
      assert (length A = length all_new) by apply length_collect_events.
      split; [lia|]. split; [|exact Hjs0].
      rewrite lookup_app_l by lia. exact Hs0.
    + intros k e s' Hk Hev.
      apply lookup_app_Some in Hev. destruct Hev as [Hev|[_ Hev]].
      * apply lookup_lt_Some in Hev. lia.
      * apply HB in Hev. subst s'. exact Hin.
Qed.

Lemma seen_before_notify_and_kept_on_failure_witness :
  main_cycle Demo.world (u "token") (u "42") Demo.start = Ok Demo.final
  /\ fst <$> trace Demo.final !! 2%nat
     = Some (EvNotify Demo.job_rennes false)
  /\ job_id Demo.job_rennes ∈ seen Demo.final.
Proof.
  assert (Hlook : fst <$> trace Demo.final !! 2%nat
                  = Some (EvNotify Demo.job_rennes false))
    by (vm_compute; reflexivity).
  destruct (seen_before_notify_and_kept_on_failure
              Demo.world (u "token") (u "42") Demo.start)
    as (st' & evs & Hrun & Htr & _ & _ & Hev).
  assert (Hfin : Demo.final = st')
    by (unfold Demo.final; rewrite Hrun; reflexivity).
  subst st'.
  change (trace Demo.final = evs) in Htr. subst evs.
  split; [exact Hrun|]. split; [exact Hlook|].
  destruct (trace Demo.final !! 2%nat) as [[e s]|] eqn:E;
    [|discriminate Hlook].
  injection Hlook as ->.
  destruct (Hev 2%nat Demo.job_rennes false s E) as (_ & _ & _ & Hfinal).
  exact Hfinal.
Defined.

(** * Further properties of the code *)

(** ** Eligibility filter *)

(** X1.  The filter only drops records: its output is a subsequence of its
    input (no record is added, duplicated or moved), and every record of
    the output passes both gates. *)
Theorem filter_output_is_subsequence `{PyLib}
        (jobs : list Job) (region_cities : list pystr) (ac ar : bool) :
  sublist (filter_by_region_and_contract jobs region_cities ac ar) jobs
  /\ Forall (fun j => locality_gate region_cities ar j = true
                      /\ contract_gate ac j = true)
            (filter_by_region_and_contract jobs region_cities ac ar).
Proof.
  split.
  - induction jobs as [|j rest IH]; simpl; [constructor|].
    destruct (locality_gate region_cities ar j); simpl;
      [|apply sublist_cons, IH].
    destruct (contract_gate ac j);
      [apply sublist_skip, IH|apply sublist_cons, IH].
  - apply List.Forall_forall. intros j Hj.
    apply filter_by_region_and_contract_In in Hj. tauto.
Qed.

(** X2.  The call of the regional sweep (contracts checked, remote not
    accepted) is the strictest one: a record it keeps is kept under every
    other setting of the two flags. *)
Theorem strictest_flags_keep_least `{PyLib}
        (jobs : list Job) (region_cities : list pystr) (ac ar : bool)
        (j : Job) :
  In j (filter_by_region_and_contract jobs region_cities true false) ->
  In j (filter_by_region_and_contract jobs region_cities ac ar).
Proof.
  rewrite !filter_by_region_and_contract_In.
  intros (Hin & Hloc & Hc). split; [exact Hin|]. split.
  - unfold locality_gate in *. simpl in Hloc. rewrite Hloc.
    destruct (ar && is_remote j); reflexivity.
  - destruct ac; [exact Hc|reflexivity].
Qed.

Lemma strictest_flags_keep_least_witness :
  In Demo.rennes_job
     (filter_by_region_and_contract [Demo.paris_remote_job; Demo.rennes_job]
        BRETAGNE_CITIES false true).
Proof.
  apply (strictest_flags_keep_least
           [Demo.paris_remote_job; Demo.rennes_job] BRETAGNE_CITIES
           false true Demo.rennes_job).
  vm_compute. left. reflexivity.
Defined.

(** X3.  Decisions are taken record by record: filtering two batches and
    concatenating the outputs is filtering the concatenated batch. *)
Theorem filter_of_concatenation `{PyLib}
        (jobs1 jobs2 : list Job) (region_cities : list pystr)
        (ac ar : bool) :
  filter_by_region_and_contract (jobs1 ++ jobs2) region_cities ac ar
  = filter_by_region_and_contract jobs1 region_cities ac ar
    ++ filter_by_region_and_contract jobs2 region_cities ac ar.
Proof.
  rewrite !filter_by_region_and_contract_spec. apply List.filter_app.
Qed.

Lemma in_region_app `{PyLib} (r1 r2 : list pystr) (j : Job) :
  in_region (r1 ++ r2) j = in_region r1 j || in_region r2 j.
Proof. unfold in_region. apply existsb_app. Qed.

(** X4.  Adding cities to the region list, in front or behind, never
    removes a record from the output. *)
Theorem more_regions_keep_more `{PyLib}
        (jobs : list Job) (r extra : list pystr) (ac ar : bool) (j : Job) :
  In j (filter_by_region_and_contract jobs r ac ar) ->
  In j (filter_by_region_and_contract jobs (r ++ extra) ac ar)
  /\ In j (filter_by_region_and_contract jobs (extra ++ r) ac ar).
Proof.
  rewrite !filter_by_region_and_contract_In.
  intros (Hin & Hloc & Hc).
  assert (Hmono : forall r', (in_region r j = true -> in_region r' j = true)
                             -> locality_gate r' ar j = true).
  { intros r' Hr'. unfold locality_gate in *.
    destruct (ar && is_remote j); [reflexivity|auto]. }
  split; (split; [exact Hin|split; [apply Hmono|exact Hc]]);
    rewrite in_region_app; intros ->; [reflexivity|apply orb_true_r].
Qed.

Lemma more_regions_keep_more_witness :
  In Demo.rennes_job
     (filter_by_region_and_contract [Demo.rennes_job]
        ([u "Rennes"] ++ [u "Paris"]) true false)
  /\ In Demo.rennes_job
        (filter_by_region_and_contract [Demo.rennes_job]
           ([u "Paris"] ++ [u "Rennes"]) true false).
Proof.
  apply (more_regions_keep_more [Demo.rennes_job] [u "Rennes"] [u "Paris"]
           true false Demo.rennes_job).
  vm_compute. left. reflexivity.
Defined.

(** X5.  With an empty region list and remote not accepted nothing passes
    the locality gate: the output is empty. *)
Theorem no_region_no_remote_keeps_nothing `{PyLib}
        (jobs : list Job) (ac : bool) :
  filter_by_region_and_contract jobs [] ac false = [].
Proof. induction jobs as [|j rest IH]; simpl; [reflexivity|exact IH]. Qed.

(** X6.  On the records returned by the fetcher the contract check changes
    nothing: filtering them with [accept_contracts] true or false gives the
    same output. *)
Theorem contract_flag_is_idle_on_fetched_records `{PyLib}
        (W : World) (query location : pystr) (max_pages n : nat)
        (region_cities : list pystr) (ar : bool) :
  filter_by_region_and_contract
    (fst (parse_indeed_search W query location max_pages n))
    region_cities true ar
  = filter_by_region_and_contract
      (fst (parse_indeed_search W query location max_pages n))
      region_cities false ar.
Proof.
  rewrite !filter_by_region_and_contract_spec.
  apply List.filter_ext_in. intros j Hj. f_equal.
  apply parse_indeed_search_extracted in Hj.
  destruct Hj as (_ & _ & Hc).
  unfold contract_gate. unfold detect_contract in Hc.
  destruct (job_contract j) as [tag|]; simpl; [|reflexivity].
  symmetry in Hc. apply find_some in Hc. destruct Hc as [Hkw _].
  rewrite (keyword_tag_accepted tag Hkw). simpl.
  destruct (truthy tag); reflexivity.
Qed.

(** ** Record extractor and listing fetcher *)




Lemma page_loop_requests `{PyLib} (W : World) (query location : pystr)
      (todo : nat) : forall page n results,
  (n + Nat.min 1 todo
   <= snd (page_loop W query location todo page n results)
   <= n + todo)%nat.
Proof.
  induction todo as [|todo IH]; intros page n results; simpl; [lia|].
  destruct (http_get W n _) as [resp|e]; simpl; [|lia].
  destruct (status_code resp =? 200)%Z; simpl; [|lia].
  destruct (select_cards (soup resp)) as [|c cards]; simpl; [lia|].
  specialize (IH (S page) (S n) (add_cards (c :: cards) results)).
  simpl in IH. lia.
Qed.

(** X9.  A search of at most [max_pages] pages issues at least one request
    (when [max_pages] is not 0) and at most [max_pages]; with [max_pages]
    0 it issues none and returns no record. *)
Theorem search_request_budget `{PyLib}
        (W : World) (query location : pystr) (max_pages n : nat) :
  (n + Nat.min 1 max_pages
   <= snd (parse_indeed_search W query location max_pages n)
   <= n + max_pages)%nat
  /\ parse_indeed_search W query location 0 n = ([], n).
Proof.
  split; [apply page_loop_requests|reflexivity].
Qed.




Lemma page_loop_frame `{PyLib} (W W' : World) (query location : pystr)
      (todo : nat) : forall page n results,
  (forall k, (k < todo)%nat ->
     http_get W (n + k) (make_indeed_url query location ((page + k) * 10))
     = http_get W' (n + k)
                (make_indeed_url query location ((page + k) * 10))) ->
  page_loop W query location todo page n results
  = page_loop W' query location todo page n results.
Proof.
  induction todo as [|todo IH]; intros page n results Hsame; [reflexivity|].
  simpl. pose proof (Hsame 0%nat ltac:(lia)) as H0.
  rewrite !Nat.add_0_r in H0. rewrite H0.
  destruct (http_get W' n _) as [resp|e]; [|reflexivity].
  destruct (status_code resp =? 200)%Z; simpl; [|reflexivity].
  destruct (select_cards (soup resp)) as [|c cards]; [reflexivity|].
  apply IH. intros k Hk.
  specialize (Hsame (S k) ltac:(lia)).
  replace (S n + k)%nat with (n + S k)%nat by lia.
  replace (S page + k)%nat with (page + S k)%nat by lia.
  exact Hsame.
Qed.

(** X11.  A search reads the world only through its own requests: request
    [n + k] for page [k], with the query, the location and offset
    [10 * k].  Two worlds that answer these alike give the same records
    and the same request count. *)
Theorem search_reads_only_its_pages `{PyLib}
        (W W' : World) (query location : pystr) (max_pages n : nat) :
  (forall k, (k < max_pages)%nat ->
     http_get W (n + k) (mkParams query location (k * 10))
     = http_get W' (n + k) (mkParams query location (k * 10))) ->
  parse_indeed_search W query location max_pages n
  = parse_indeed_search W' query location max_pages n.
Proof.
  intros Hsame. apply page_loop_frame. exact Hsame.
Qed.

Lemma search_reads_only_its_pages_witness :
  parse_indeed_search Demo.world (u "saisie") (u "Rennes") 1 0
  = parse_indeed_search
      (mkWorld (fun n p => if (n =? 0)%nat then http_get Demo.world 0 p
                           else Raise OSError)
               (fun _ _ _ _ => Ok 200%Z))
      (u "saisie") (u "Rennes") 1 0.
Proof.
  apply (search_reads_only_its_pages Demo.world _ (u "saisie") (u "Rennes")
           1 0).
  intros k Hk. assert (k = 0)%nat as -> by lia. reflexivity.
Defined.

(** ** Fingerprint *)

Lemma hex32_digits (x : N) :
  length (Sha1.hex32 x) = 8%nat /\ Forall is_hex_digit (Sha1.hex32 x).
Proof.
  split; [reflexivity|].
  unfold Sha1.hex32. apply List.Forall_forall. intros c Hc.
  apply in_map_iff in Hc. destruct Hc as (i & <- & _).
  pose proof (N.mod_lt (x / 16 ^ N.of_nat i) 16 ltac:(lia)) as Hlt.
  unfold Sha1.hex_digit, is_hex_digit.
  generalize dependent ((x / 16 ^ N.of_nat i) mod 16). intros d Hlt.
  destruct (N.ltb_spec d 10); lia.
Qed.

(** X12.  Whatever the link, the id is a string of exactly 40 lower-case
    hexadecimal digits. *)
Theorem job_id_is_forty_hex_digits (link : pystr) :
  length (get_job_id_from_link link) = 40%nat
  /\ Forall is_hex_digit (get_job_id_from_link link).
Proof.
  unfold get_job_id_from_link, Sha1.hexdigest.
  set (r := Sha1.digest (encode_utf8 link)).
  split.
  - rewrite !length_app.
    rewrite !(proj1 (hex32_digits _)). reflexivity.
  - repeat (apply Forall_app; split); apply hex32_digits.
Qed.

(** ** Substring test *)

Lemma starts_with_app (p b : pystr) : starts_with p (p ++ b) = true.
Proof.
  induction p as [|c p IH]; simpl; [reflexivity|].
  rewrite N.eqb_refl. exact IH.
Qed.

Lemma contains_app_r (p a s : pystr) :
  contains p s = true -> contains p (a ++ s) = true.
Proof.
  intros Hs. induction a as [|x a IH]; simpl; [exact Hs|].
  rewrite IH. apply orb_true_r.
Qed.

Lemma contains_here (p a b : pystr) : contains p (a ++ p ++ b) = true.
Proof.
  apply contains_app_r. destruct (p ++ b) eqn:E; simpl.
  - destruct p; [reflexivity|discriminate].
  - rewrite <- E, starts_with_app. reflexivity.
Qed.

Lemma starts_with_split (p : pystr) : forall l,
  starts_with p l = true -> exists b, l = p ++ b.
Proof.
  induction p as [|c p IH]; intros l Hs.
  - exists l. reflexivity.
  - destruct l as [|y l]; [discriminate|]. simpl in Hs.
    apply andb_true_iff in Hs. destruct Hs as [Hc Hs].
    apply N.eqb_eq in Hc. subst y.
    destruct (IH l Hs) as [b ->]. exists b. reflexivity.
Qed.

(** [p in s] holds exactly when [p] occurs in [s] as a contiguous run. *)
Lemma contains_occurs (p s : pystr) :
  contains p s = true <-> exists a b, s = a ++ p ++ b.
Proof.
  split.
  - induction s as [|x s IH]; simpl.
    + rewrite orb_false_r. destruct p; [|discriminate].
      intros _. exists [], []. reflexivity.
    + intros Hc. apply orb_true_iff in Hc. destruct Hc as [Hs|Hc].
      * apply starts_with_split in Hs. destruct Hs as [b Hb].
        exists [], b. exact Hb.
      * destruct (IH Hc) as (a & b & ->). exists (x :: a), b. reflexivity.
  - intros (a & b & ->). apply contains_here.
Qed.

Lemma contains_join_line (sep l : pystr) (lines : list pystr) :
  In l lines -> contains l (join sep lines) = true.
Proof.
  induction lines as [|p rest IH]; intros Hin; [destruct Hin|].
  destruct rest as [|q rest].
  - destruct Hin as [->|[]]. apply contains_refl.
  - change (join sep (p :: q :: rest))
      with (p ++ sep ++ join sep (q :: rest)).
    destruct Hin as [->|Hin].
    + apply (contains_here l []).
    + rewrite app_assoc. apply contains_app_r, IH, Hin.
Qed.

Lemma truthy_length (s : pystr) : truthy s = true <-> (0 < length s)%nat.
Proof. destruct s; simpl; split; (discriminate || lia || reflexivity). Qed.

(** ** Notifier *)

Lemma format_job_message_lines (job : Job) :
  format_job_message job = join [10] (message_lines job).
Proof.
  unfold format_job_message, message_lines.
  destruct (truthy_opt (job_contract job)), (truthy (job_summary job));
    reflexivity.
Qed.

(** X13.  Every message opens with the bell and the title, and carries the
    company/location line and the link; it carries the contract line when
    the record has a non-empty tag. *)
Theorem message_shows_title_and_link (job : Job) :
  starts_with (u "🔔 " ++ job_title job) (format_job_message job) = true
  /\ contains (u "🏢 " ++ job_company job ++ u " — 📍 " ++ job_location job)
              (format_job_message job) = true
  /\ contains (job_link job) (format_job_message job) = true
  /\ (truthy_opt (job_contract job) = true ->
      contains (u "🧾 Contrat: " ++ default [] (job_contract job))
               (format_job_message job) = true).
Proof.
  rewrite format_job_message_lines.
  split; [|split; [|split]].
  - unfold message_lines. cbn [app].
    match goal with
    | |- starts_with ?p (join ?sep (?p :: ?q :: ?r)) = true =>
        change (starts_with p (p ++ sep ++ join sep (q :: r)) = true)
    end.
    apply starts_with_app.
  - apply contains_join_line. unfold message_lines. right. left. reflexivity.
  - apply contains_join_line. unfold message_lines.
    apply in_or_app. right. apply in_or_app. right.
    apply in_or_app. left. left. reflexivity.
  - intros Ht. apply contains_join_line. unfold message_lines. rewrite Ht.
    right. right. left. reflexivity.
Qed.

(** X14.  The summary adds at most 403 code points to a message: the
    length of a message is bounded by the lengths of the title, company,
    location, tag and link plus 428, however long the summary is. *)
Theorem message_length_is_bounded (job : Job) :
  (length (format_job_message job)
   <= 428 + length (job_title job) + length (job_company job)
      + length (job_location job) + length (default [] (job_contract job))
      + length (job_link job))%nat.
Proof.
  unfold format_job_message.
  pose proof (length_firstn 400 (job_summary job)) as Hf.
  assert (H1 : length (u "🔔 ") = 2%nat) by reflexivity.
  assert (H2 : length (u "🏢 ") = 2%nat) by reflexivity.
  assert (H3 : length (u " — 📍 ") = 5%nat) by reflexivity.
  assert (H4 : length (u "🧾 Contrat: ") = 11%nat) by reflexivity.
  assert (H5 : length (u "...") = 3%nat) by reflexivity.
  generalize dependent (u "🔔 "). generalize dependent (u "🏢 ").
  generalize dependent (u " — 📍 "). generalize dependent (u "🧾 Contrat: ").
  generalize dependent (u "..."). intros.
  destruct (truthy_opt (job_contract job)), (truthy (job_summary job));
    cbn [app join]; rewrite ?length_app; cbn [length];
    destruct (400 <? length (job_summary job))%nat;
    repeat (progress (rewrite ?length_app; cbn [length])); lia.
Qed.

(** X15.  The message ends with the link when the summary is empty; with
    the link, an empty line and the whole summary when the summary has at
    most 400 code points; and with the link, an empty line, the first 400
    code points of the summary and "..." when it is longer. *)
Theorem message_summary_is_cut_at_400 (job : Job) :
  (job_summary job = [] ->
   exists pre, format_job_message job = pre ++ job_link job)
  /\ ((0 < length (job_summary job) <= 400)%nat ->
      exists pre,
        format_job_message job
        = pre ++ job_link job ++ [10; 10] ++ job_summary job)
  /\ ((400 < length (job_summary job))%nat ->
      exists pre,
        format_job_message job
        = pre ++ job_link job ++ [10; 10]
              ++ firstn 400 (job_summary job) ++ u "...").
Proof.
  rewrite format_job_message_lines. unfold message_lines.
  set (l1 := u "🔔 " ++ job_title job).
  set (l2 := u "🏢 " ++ job_company job ++ u " — 📍 " ++ job_location job).
  set (l3 := u "🧾 Contrat: " ++ default [] (job_contract job)).
  split; [|split].
  - intros ->. cbn [truthy app].
    destruct (truthy_opt (job_contract job)); cbn [app join].
    + exists (l1 ++ [10] ++ l2 ++ [10] ++ l3 ++ [10]).
      rewrite <- !app_assoc. reflexivity.
    + exists (l1 ++ [10] ++ l2 ++ [10]).
      rewrite <- !app_assoc. reflexivity.
  - intros [Hpos Hle].
    apply truthy_length in Hpos. rewrite Hpos.
    apply Nat.ltb_ge in Hle. rewrite Hle.
    rewrite firstn_all2 by (apply Nat.ltb_ge, Hle).
    destruct (truthy_opt (job_contract job)); cbn [app join].
    + exists (l1 ++ [10] ++ l2 ++ [10] ++ l3 ++ [10]).
      rewrite <- !app_assoc, app_nil_r. reflexivity.
    + exists (l1 ++ [10] ++ l2 ++ [10]).
      rewrite <- !app_assoc, app_nil_r. reflexivity.
  - intros Hlen.
    assert (Hpos : truthy (job_summary job) = true)
      by (apply truthy_length; lia).
    rewrite Hpos. apply Nat.ltb_lt in Hlen. rewrite Hlen.
    destruct (truthy_opt (job_contract job)); cbn [app join].
    + exists (l1 ++ [10] ++ l2 ++ [10] ++ l3 ++ [10]).
      rewrite <- !app_assoc. reflexivity.
    + exists (l1 ++ [10] ++ l2 ++ [10]).
      rewrite <- !app_assoc. reflexivity.
Qed.

(** ** Poll loop: what a pass collects *)

Lemma fresh_from_app (n1 n2 : list Job) : forall s,
  fresh_from s n1 -> fresh_from (ids_of n1 ∪ s) n2 ->
  fresh_from s (n1 ++ n2).
Proof.
  induction n1 as [|j n1 IH]; intros s H1 H2; simpl in *.
  - replace s with (∅ ∪ s) by set_solver. exact H2.
  - destruct H1 as [Hj H1]. split; [exact Hj|].
    apply IH; [exact H1|].
    replace (ids_of n1 ∪ ({[job_id j]} ∪ s))
      with ({[job_id j]} ∪ ids_of n1 ∪ s) by set_solver.
    exact H2.
Qed.

Lemma fresh_from_NoDup (news : list Job) : forall s,
  fresh_from s news ->
  NoDup (map job_id news) /\ forall j, In j news -> job_id j ∉ s.
Proof.
  induction news as [|j news IH]; intros s Hf; simpl in *.
  - split; [constructor|tauto].
  - destruct Hf as [Hj Hf]. destruct (IH _ Hf) as [Hnd Hout].
    split.
    + constructor; [|exact Hnd].
      rewrite list_elem_of_In. intros Hin.
      apply in_map_iff in Hin. destruct Hin as (j' & Hid & Hj').
      apply Hout in Hj'. rewrite Hid in Hj'. set_solver.
    + intros j' [<-|Hj']; [exact Hj|].
      apply Hout in Hj'. set_solver.
Qed.

Section SweepFacts.

Context `{PyLib}.
Variable W : World.
Variables token chat_id : pystr.

Lemma sweeps_refl acc : sweeps 0 acc acc.
Proof.
  exists []. simpl. rewrite !app_nil_r, Nat.add_0_r.
  repeat split; [set_solver|constructor].
Qed.

Lemma sweeps_trans g1 g2 a b c :
  sweeps g1 a b -> sweeps g2 b c -> sweeps (g1 + g2) a c.
Proof.
  intros (n1 & Hn1 & Ht1 & Hs1 & Hp1 & Hg1 & Hf1 & He1)
         (n2 & Hn2 & Ht2 & Hs2 & Hp2 & Hg2 & Hf2 & He2).
  exists (n1 ++ n2). repeat split.
  - rewrite Hn2, Hn1, app_assoc. reflexivity.
  - rewrite Ht2, Ht1, Hs1, collect_events_app, app_assoc. reflexivity.
  - rewrite Hs2, Hs1, ids_of_app. set_solver.
  - congruence.
  - lia.
  - apply fresh_from_app; [exact Hf1|]. rewrite <- Hs1. exact Hf2.
  - apply Forall_app. split; assumption.
Qed.

Lemma sweeps_eq g g' a b : g = g' -> sweeps g a b -> sweeps g' a b.
Proof. intros ->. trivial. Qed.

Lemma collect_sweeps j acc : eligible j -> sweeps 0 acc (collect j acc).
Proof.
  intros He. destruct acc as [all_new st]. unfold collect.
  destruct (decide (job_id j ∈ seen st)) as [Hin|Hout];
    [apply sweeps_refl|].
  exists [j]. simpl. rewrite Nat.add_0_r.
  repeat split; [set_solver|exact Hout|].
  constructor; [exact He|constructor].
Qed.

Lemma for_each_sweeps {A : Type} (c : nat) (xs : list A)
      (body : A -> list Job * State -> list Job * State) :
  (forall x acc, In x xs -> sweeps c acc (body x acc)) ->
  forall acc, sweeps (length xs * c) acc (for_each xs body acc).
Proof.
  unfold for_each.
  induction xs as [|x xs IH]; intros Hbody acc; simpl.
  - apply sweeps_refl.
  - eapply sweeps_trans.
    + apply Hbody. left. reflexivity.
    + apply IH. intros y acc' Hy. apply Hbody. right. exact Hy.
Qed.

Lemma fetch_one_request query location st :
  fetch W query location st
  = (fst (parse_indeed_search W query location 1 (gets st)),
     mkState (seen st) (S (gets st)) (posts st) (trace st)).
Proof.
  unfold fetch.
  pose proof (page_loop_requests W query location 1 0 (gets st) []) as Hn.
  fold (parse_indeed_search W query location 1 (gets st)) in Hn.
  destruct (parse_indeed_search W query location 1 (gets st)) as [jobs n].
  simpl in *. do 2 f_equal. lia.
Qed.

Lemma sweeps_fetch all_new st st' :
  seen st' = seen st -> posts st' = posts st -> trace st' = trace st ->
  gets st' = S (gets st) ->
  sweeps 1 (all_new, st) (all_new, st').
Proof.
  intros Hs Hp Ht Hg. exists []. simpl. rewrite !app_nil_r.
  repeat split; [exact Ht|rewrite Hs; set_solver|exact Hp|lia|constructor].
Qed.

Lemma regional_sweep_sweeps acc :
  sweeps (length TITLES * length BRETAGNE_CITIES) acc (regional_sweep W acc).
Proof.
  unfold regional_sweep.
  apply (for_each_sweeps (length BRETAGNE_CITIES)). intros title acc1 _.
  apply (sweeps_eq (length BRETAGNE_CITIES * 1)); [lia|].
  apply (for_each_sweeps 1). intros city [all_new st] _.
  rewrite fetch_one_request.
  set (jobs := fst (parse_indeed_search W title city 1 (gets st))).
  set (st1 := mkState _ _ _ _).
  apply (sweeps_eq (1 + length (filter_by_region_and_contract
                                  jobs BRETAGNE_CITIES true false) * 0));
    [lia|].
  eapply sweeps_trans; [apply (sweeps_fetch all_new st st1); reflexivity|].
  apply (for_each_sweeps 0). intros j acc2 Hj. apply collect_sweeps.
  apply filter_by_region_and_contract_In in Hj.
  destruct Hj as (Hin & Hloc & Hc).
  split; [|split; [exact Hc|left; exact Hloc]].
  eapply parse_indeed_search_extracted. exact Hin.
Qed.

Lemma remote_sweep_sweeps acc :
  sweeps (length TITLES) acc (remote_sweep W acc).
Proof.
  unfold remote_sweep.
  apply (sweeps_eq (length TITLES * 1)); [lia|].
  apply (for_each_sweeps 1). intros title [all_new st] _.
  rewrite fetch_one_request.
  set (jobs := fst (parse_indeed_search W _ _ 1 (gets st))).
  set (st1 := mkState _ _ _ _).
  apply (sweeps_eq (1 + length (filter_by_region_and_contract
                                  jobs BRETAGNE_CITIES true true) * 0));
    [lia|].
  eapply sweeps_trans; [apply (sweeps_fetch all_new st st1); reflexivity|].
  apply (for_each_sweeps 0). intros j acc2 Hj.
  destruct (remote_recheck j) eqn:Hre; [|apply sweeps_refl].
  apply collect_sweeps.
  apply filter_by_region_and_contract_In in Hj.
  destruct Hj as (Hin & Hloc & Hc).
  split; [eapply parse_indeed_search_extracted; exact Hin|].
  split; [exact Hc|].
  unfold locality_gate in Hloc. simpl in Hloc.
  destruct (is_remote j); [right; auto|left; exact Hloc].
Qed.

(** The shape of one pass. *)
Lemma main_cycle_shape st :
  exists news,
    fresh_from (seen st) news
    /\ Forall eligible news
    /\ main_cycle W token chat_id st
       = Ok (mkState (ids_of news ∪ seen st)
                     (gets st + REQUESTS_PER_CYCLE)
                     (posts st + length news)
                     (trace st
                      ++ cycle_events W token chat_id news (posts st)
                                      (seen st))).
Proof.
  unfold main_cycle.
  pose proof (sweeps_trans _ _ _ _ _
                (regional_sweep_sweeps ([], st))
                (remote_sweep_sweeps (regional_sweep W ([], st)))) as Hsw.
  destruct (remote_sweep W (regional_sweep W ([], st))) as [all_new st1].
  destruct Hsw as (news & Hnew & Htr & Hseen & Hp & Hg & Hf & He).
  simpl in Hnew, Htr, Hseen, Hp, Hg, Hf. subst news.
  exists all_new. split; [exact Hf|]. split; [exact He|].
  unfold cycle_events, REQUESTS_PER_CYCLE.
  destruct st1 as [s1 g1 p1 t1]. simpl in Htr, Hseen, Hp, Hg. subst.
  destruct all_new as [|j0 rest] eqn:Enew.
  - simpl. rewrite !app_nil_r, Nat.add_0_r. reflexivity.
  - rewrite <- Enew in *. clear Enew.
    rewrite notify_all_spec. unfold bindE, log. simpl.
    rewrite <- !app_assoc. reflexivity.
Qed.

End SweepFacts.

Section RunFacts.

Context `{PyLib}.
Variable W : World.
Variables token chat_id : pystr.

Lemma notified_app evs1 evs2 :
  notified (evs1 ++ evs2) = notified evs1 ++ notified evs2.
Proof. apply flat_map_app. Qed.

Lemma collected_app evs1 evs2 :
  collected (evs1 ++ evs2) = collected evs1 ++ collected evs2.
Proof. apply flat_map_app. Qed.

Lemma cycle_events_records news p s :
  notified (cycle_events W token chat_id news p s) = news
  /\ collected (cycle_events W token chat_id news p s) = news.
Proof.
  unfold cycle_events. rewrite notified_app, collected_app.
  destruct (collected_collect_events news s) as [-> ->].
  destruct news as [|j rest]; [split; reflexivity|].
  rewrite notified_app, collected_app.
  destruct (notified_notify_events W token chat_id (j :: rest) p
              (ids_of (j :: rest) ∪ s)) as [-> ->].
  simpl. rewrite !app_nil_r. split; reflexivity.
Qed.

(** The shape of [n] passes in a row. *)
Lemma cycles_shape n : forall st,
  exists st' evs,
    cycles W token chat_id n st = Ok st'
    /\ trace st' = trace st ++ evs
    /\ fresh_from (seen st) (notified evs)
    /\ Forall eligible (notified evs)
    /\ seen st' = ids_of (notified evs) ∪ seen st
    /\ gets st' = (gets st + n * REQUESTS_PER_CYCLE)%nat
    /\ posts st' = (posts st + length (notified evs))%nat.
Proof.
  induction n as [|n IH]; intros st.
  - exists st, []. simpl. rewrite app_nil_r, !Nat.add_0_r.
    repeat split; [constructor|set_solver].
  - destruct (main_cycle_shape W token chat_id st)
      as (news & Hf & He & Hrun).
    cbn [cycles]. rewrite Hrun. cbn [bindE].
    set (st1 := mkState _ _ _ _).
    destruct (IH st1) as (st' & evs & Hrun' & Htr & Hf' & He' & Hs & Hg & Hp).
    destruct (cycle_events_records news (posts st) (seen st)) as [Hn _].
    exists st', (cycle_events W token chat_id news (posts st) (seen st)
                 ++ evs).
    rewrite notified_app, Hn.
    split; [exact Hrun'|]. split; [rewrite Htr, app_assoc; reflexivity|].
    split; [apply fresh_from_app; assumption|].
    split; [apply Forall_app; split; assumption|].
    split; [rewrite Hs, ids_of_app; unfold st1; cbn [seen]; set_solver|].
    split; [rewrite Hg; unfold st1; cbn [gets]; lia|].
    rewrite Hp, length_app. unfold st1. cbn [posts]. lia.
Qed.

End RunFacts.

(** X16.  Over any number of passes in a row, whatever the network
    answers: no id is notified twice, no id that was in the seen set at the
    start is notified, and the seen set at the end is the seen set at the
    start plus the ids of the records notified. *)
Theorem no_id_is_notified_twice `{PyLib}
        (W : World) (token chat_id : pystr) (n : nat) (st : State) :
  exists st' evs,
    cycles W token chat_id n st = Ok st'
    /\ trace st' = trace st ++ evs
    /\ NoDup (map job_id (notified evs))
    /\ (forall j, In j (notified evs) -> job_id j ∉ seen st)
    /\ seen st' = ids_of (notified evs) ∪ seen st.
Proof.
  destruct (cycles_shape W token chat_id n st)
    as (st' & evs & Hrun & Htr & Hf & _ & Hs & _).
  exists st', evs. destruct (fresh_from_NoDup _ _ Hf) as [Hnd Hout].
  auto.
Qed.

(** X17.  Every record notified in a run comes from the fetcher (its id is
    the hash of its link), passes the contract gate, and either names a
    city of the region in its location, title or summary, or passes both
    the filter's remote test and the re-check of the remote sweep. *)
Theorem notified_records_are_eligible `{PyLib}
        (W : World) (token chat_id : pystr) (n : nat) (st : State) :
  exists st' evs,
    cycles W token chat_id n st = Ok st'
    /\ trace st' = trace st ++ evs
    /\ forall j, In j (notified evs) ->
         job_id j = get_job_id_from_link (job_link j)
         /\ contract_gate true j = true
         /\ (in_region BRETAGNE_CITIES j = true
             \/ (is_remote j = true /\ remote_recheck j = true)).
Proof.
  destruct (cycles_shape W token chat_id n st)
    as (st' & evs & Hrun & Htr & _ & He & _).
  exists st', evs. split; [exact Hrun|]. split; [exact Htr|].
  intros j Hj. rewrite List.Forall_forall in He.
  destruct (He j Hj) as ((_ & Hid & _) & Hc & Hloc). auto.
Qed.

(** X18.  One pass issues exactly 54 search requests and posts exactly one
    message per record it collects.  A pass that collects nothing adds no
    event (no post, no write of the seen file) and leaves the seen set as
    it was; a pass that collects something ends with the write of the seen
    set it leaves, and writes only then. *)
Theorem pass_budget `{PyLib}
        (W : World) (token chat_id : pystr) (st : State) :
  exists st' evs,
    main_cycle W token chat_id st = Ok st'
    /\ trace st' = trace st ++ evs
    /\ gets st' = (gets st + 54)%nat
    /\ posts st' = (posts st + length (collected evs))%nat
    /\ (collected evs = [] -> evs = [] /\ seen st' = seen st)
    /\ (collected evs <> [] ->
        exists evs0, evs = evs0 ++ [(EvSave, seen st')]
                     /\ forall ev, In ev evs0 -> fst ev <> EvSave).
Proof.
  destruct (main_cycle_shape W token chat_id st) as (news & _ & _ & Hrun).
  eexists _, _. split; [exact Hrun|]. simpl.
  destruct (cycle_events_records W token chat_id news (posts st) (seen st))
    as [_ Hc].
  split; [reflexivity|]. split; [reflexivity|].
  rewrite Hc. split; [reflexivity|]. split.
  - intros ->. simpl. split; [reflexivity|set_solver].
  - intros Hne. unfold cycle_events.
    destruct news as [|j rest]; [congruence|].
    eexists (_ ++ _). rewrite <- app_assoc. split; [reflexivity|].
    intros ev Hev. apply in_app_or in Hev. destruct Hev as [Hev|Hev].
    + rewrite <- list_elem_of_In in Hev.
      apply list_elem_of_lookup in Hev. destruct Hev as [m Hm].
      destruct ev as [e s].
      apply (collect_events_lookup _ _ m e s) in Hm.
      destruct Hm as (j' & -> & _). discriminate.
    + rewrite <- list_elem_of_In in Hev.
      apply list_elem_of_lookup in Hev. destruct Hev as [m Hm].
      destruct ev as [e s].
      apply (notify_events_lookup W token chat_id _ _ _ m e s) in Hm.
      destruct Hm as (_ & j' & ok & -> & _). discriminate.
Qed.

(** ** Fingerprint store and start-up *)





(** ** UTF-8 *)

Ltac euclid := zify; Z.to_euclidean_division_equations; lia.

Lemma land_mask (a k m : N) : m = N.ones k -> N.land a m = a mod 2 ^ k.
Proof. intros ->. apply N.land_ones. Qed.

Ltac masks :=
  rewrite ?(land_mask _ 5 31 eq_refl), ?(land_mask _ 4 15 eq_refl),
          ?(land_mask _ 3 7 eq_refl), ?(land_mask _ 6 63 eq_refl);
  change (2 ^ 5) with 32; change (2 ^ 4) with 16;
  change (2 ^ 3) with 8; change (2 ^ 6) with 64.

Lemma decode_encode_cp (c : N) (rest : list N) :
  is_code_point c ->
  utf8_decode (encode_cp c ++ rest) 0 0 = c :: utf8_decode rest 0 0.
Proof.
  unfold is_code_point. intros Hc. unfold encode_cp.
  destruct (N.ltb_spec c 128) as [H1|H1].
  { cbn [app utf8_decode]. change (0 =? 0) with true. cbv iota.
    apply N.ltb_lt in H1. rewrite H1. reflexivity. }
  destruct (N.ltb_spec c 2048) as [H2|H2].
  { cbn [app utf8_decode]. change (0 =? 0) with true.
    change (1 =? 0) with false. change (1 =? 1) with true. cbv iota.
    replace (192 + c / 64 <? 128) with false
      by (symmetry; apply N.ltb_ge; euclid).
    replace (192 + c / 64 <? 224) with true
      by (symmetry; apply N.ltb_lt; euclid).
    masks. f_equal. euclid. }
  destruct (N.ltb_spec c 65536) as [H3|H3].
  { cbn [app utf8_decode]. change (0 =? 0) with true.
    change (2 =? 0) with false. change (2 =? 1) with false.
    change (2 - 1) with 1.
    change (1 =? 0) with false. change (1 =? 1) with true. cbv iota.
    replace (224 + c / 4096 <? 128) with false
      by (symmetry; apply N.ltb_ge; euclid).
    replace (224 + c / 4096 <? 224) with false
      by (symmetry; apply N.ltb_ge; euclid).
    replace (224 + c / 4096 <? 240) with true
      by (symmetry; apply N.ltb_lt; euclid).
    masks. f_equal. euclid. }
  cbn [app utf8_decode]. change (0 =? 0) with true.
  change (3 =? 0) with false. change (3 =? 1) with false.
  change (3 - 1) with 2.
  change (2 =? 0) with false. change (2 =? 1) with false.
  change (2 - 1) with 1.
  change (1 =? 0) with false. change (1 =? 1) with true. cbv iota.
  replace (240 + c / 262144 <? 128) with false
    by (symmetry; apply N.ltb_ge; euclid).
  replace (240 + c / 262144 <? 224) with false
    by (symmetry; apply N.ltb_ge; euclid).
  replace (240 + c / 262144 <? 240) with false
    by (symmetry; apply N.ltb_ge; euclid).
  masks. f_equal. euclid.
Qed.

Lemma decode_encode_utf8 (s : pystr) :
  Forall is_code_point s -> utf8_decode (encode_utf8 s) 0 0 = s.
Proof.
  induction 1 as [|c s Hc _ IH]; [reflexivity|].
  unfold encode_utf8. cbn [flat_map].
  rewrite decode_encode_cp by exact Hc.
  f_equal. exact IH.
Qed.

(** X21.  The bytes hashed for a link determine the link: decoding the
    UTF-8 bytes of a string of code points gives the string back, so two
    different links are never hashed from the same bytes (two records
    with different links share an id only on a SHA-1 collision). *)
Theorem links_are_hashed_from_distinct_bytes (l1 l2 : pystr) :
  Forall is_code_point l1 ->
  Forall is_code_point l2 ->
  utf8_decode (encode_utf8 l1) 0 0 = l1
  /\ (l1 <> l2 -> encode_utf8 l1 <> encode_utf8 l2).
Proof.
  intros H1 H2. split; [apply decode_encode_utf8, H1|].
  intros Hne Heq. apply Hne.
  rewrite <- (decode_encode_utf8 l1 H1), <- (decode_encode_utf8 l2 H2).
  rewrite Heq. reflexivity.
Qed.

Lemma code_points_by_test (s : pystr) :
  forallb (fun c => c <? 1114112) s = true -> Forall is_code_point s.
Proof.
  intros Hs. apply List.Forall_forall. intros c Hc.
  rewrite forallb_forall in Hs. apply N.ltb_lt, Hs, Hc.
Qed.

Lemma links_are_hashed_from_distinct_bytes_witness :
  encode_utf8 (u "https://fr.indeed.com/emploi/opérateur")
  <> encode_utf8 (u "https://fr.indeed.com/emploi/operateur").
Proof.
  apply (links_are_hashed_from_distinct_bytes
           (u "https://fr.indeed.com/emploi/opérateur")
           (u "https://fr.indeed.com/emploi/operateur")).
  - apply code_points_by_test. vm_compute. reflexivity.
  - apply code_points_by_test. vm_compute. reflexivity.
  - apply (bool_decide_eq_false_1 (_ = _)). vm_compute. reflexivity.
Defined.
